(** * Market-making quoter and order functions

    A shallow embedding of class [Quoter] ([src/bots/mm/quoter.ts]:
    [generateQuotes], [quoteToOrders], [isOrderStale] and the two rounding
    helpers) and of the order functions of
    [src/exchanges/hyperliquid/orders.ts] ([getOpenOrders],
    [cancelAllOrders], [cancelOrder], [placeOrder]), with the properties the
    specification states about them and further properties read off the
    code.

    Numbers.  The arithmetic of the quoter is modelled twice.

    [Quoter] computes on exact rationals ([Q]): [Math.floor] / [Math.ceil]
    are [Qfloor] / [Qceiling], [Math.abs] is [Qabs], [Math.min] /
    [Math.max] are [Qmin] / [Qmax] and [10 ** p] is [Qpower 10 p].  It
    carries the properties that the rounding of doubles does not reach:
    which branch is taken, which side is quoted, signs and zeros.

    [Quoter64] has the same control flow with every [+], [-], [*] and [/]
    rounded to the nearest binary64 value, ties to even ([Double.round]),
    as the code's [number]s are.  It carries the properties in which the
    value computed matters.  [Double] leaves out infinities, NaN, the sign
    of zero and overflow past the largest double; [10 ** p] is the double
    nearest to the power, which is the power itself for [0 <= p <= 22].
    [double_agrees_with_hardware] compares it with the machine's
    arithmetic on sample operands.

    The only division of [generateQuotes] whose divisor is not visibly
    nonzero is the one by [tickSize]; a theorem whose conclusion depends on
    it assumes [0 < tickSize], as the data model requires.  [isOrderStale]
    divides by [fairPrice]; its theorem assumes [0 < fairPrice].  Equality
    of numbers is [Qeq] ([==]). *)

From Stdlib Require Import PrimFloat FloatOps SpecFloat.
From Stdlib Require Import QArith Qabs Qminmax Qround Qpower Lqa.
From Stdlib Require Import ZArith Lia List String Ascii Bool DecimalString DecimalPos.
Import ListNotations.

Local Open Scope Q_scope.
Set Warnings "-inexact-float".

(** ** Comparisons of numbers as the booleans the code branches on *)

Definition Qleb (x y : Q) : bool := Qle_bool x y.          (* x <= y *)
Definition Qgeb (x y : Q) : bool := Qle_bool y x.          (* x >= y *)
Definition Qgtb (x y : Q) : bool := negb (Qle_bool x y).   (* x >  y *)

(** ** Types shared by the two source files *)

(** Modelled from the spec: the declaration of [Market] (types.js) is not
    among the sources.  The fields are the ones the source reads:
    [id], [symbol], [base], [pricePrecision] in orders.ts, [tickSize] and
    [sizePrecision] in quoter.ts; the spec's MarketMetadata gives
    [tickSize] "minimum price increment" and [sizePrecision] "decimal
    places for order size", hence an integer. *)
Module Market.
Record t : Type := mk
  { id : string;
    symbol : string;
    base : string;
    tickSize : Q;
    sizePrecision : Z;
    pricePrecision : Z }.
End Market.

Inductive Side : Type := buy | sell.
Inductive OrderType : Type := limit.

(** Modelled from the spec: [OrderRequest] (types.js); the optional
    [clientId] is never set by the quoter. *)
Module OrderRequest.
Record t : Type := mk
  { symbol : string;
    side : Side;
    type : OrderType;
    price : Q;
    size : Q;
    postOnly : bool;
    reduceOnly : bool }.
End OrderRequest.

(** Modelled from the spec: [MarketMakerConfig] (config.js), section 6:
    [{symbol, spreadBps, takeProfitBps, closeThresholdUsd, orderSizeUsd}]. *)
Module MarketMakerConfig.
Record t : Type := mk
  { symbol : string;
    spreadBps : Q;
    takeProfitBps : Q;
    closeThresholdUsd : Q;
    orderSizeUsd : Q }.

(** "all required, all must be positive except closeThresholdUsd which
    must be >= 0". *)
Definition valid (c : t) : Prop :=
  0 < spreadBps c /\ 0 < takeProfitBps c /\
  0 <= closeThresholdUsd c /\ 0 < orderSizeUsd c.
End MarketMakerConfig.

(** ** quoter.ts *)

Module Quote.
Record t : Type := mk
  { bidPrice : Q;
    askPrice : Q;
    bidSize : Q;
    askSize : Q;
    fairPrice : Q;
    spreadBps : Q;
    isCloseMode : bool }.
End Quote.

(** [{ bids: [number, number][]; asks: [number, number][] }]: price and
    size per level, best level first. *)
Module Orderbook.
Record t : Type := mk
  { bids : list (Q * Q);
    asks : list (Q * Q) }.
End Orderbook.

Inductive Direction : Type := up | down.

Module Quoter.

(** The two private fields of the class. *)
Record t : Type := mk
  { config : MarketMakerConfig.t;
    market : option Market.t }.

(** [constructor(config)]: [market] starts as [null]. *)
Definition new (c : MarketMakerConfig.t) : t := mk c None.

(** [setMarket(market)] *)
Definition setMarket (this : t) (m : Market.t) : t :=
  mk (config this) (Some m).

(** [roundToTick(price, direction)] *)
Definition roundToTick (this : t) (price : Q) (direction : Direction) : Q :=
  match market this with
  | None => price
  | Some m =>
      let tickSize := Market.tickSize m in
      match direction with
      | down => inject_Z (Qfloor (price / tickSize)) * tickSize
      | up => inject_Z (Qceiling (price / tickSize)) * tickSize
      end
  end.

(** [roundSize(size)] *)
Definition roundSize (this : t) (size : Q) : Q :=
  match market this with
  | None => size
  | Some m =>
      let precision := Market.sizePrecision m in
      let multiplier := 10 ^ precision in
      inject_Z (Qceiling (size * multiplier)) / multiplier
  end.

(** The post-only adjustment of the bid, lines 69-76. *)
Definition adjustBid (m : Market.t) (asks : list (Q * Q)) (bidPrice : Q) : Q :=
  match asks with
  | [] => bidPrice
  | (bestAsk, _) :: _ =>
      let maxBid := bestAsk - Market.tickSize m in
      if Qgeb bidPrice bestAsk then Qmin bidPrice maxBid else bidPrice
  end.

(** The post-only adjustment of the ask, lines 79-86. *)
Definition adjustAsk (m : Market.t) (bids : list (Q * Q)) (askPrice : Q) : Q :=
  match bids with
  | [] => askPrice
  | (bestBid, _) :: _ =>
      let minAsk := bestBid + Market.tickSize m in
      if Qleb askPrice bestBid then Qmax askPrice minAsk else askPrice
  end.

(** [generateQuotes(fairPrice, positionNotional, orderbook?)].  The
    [logger.debug] calls do not influence the result and are left out. *)
Definition generateQuotes (this : t) (fairPrice positionNotional : Q)
    (orderbook : option Orderbook.t) : Quote.t :=
  let cfg := config this in
  let isCloseMode :=
    Qgtb (Qabs positionNotional) (MarketMakerConfig.closeThresholdUsd cfg) in
  let spreadBps :=
    if isCloseMode then MarketMakerConfig.takeProfitBps cfg
    else MarketMakerConfig.spreadBps cfg in
  let spreadMultiplier := spreadBps / 10000 in
  let bidPrice := fairPrice * (1 - spreadMultiplier) in
  let askPrice := fairPrice * (1 + spreadMultiplier) in
  let bidPrice := if Qleb bidPrice 0 then 0 else bidPrice in
  let askPrice := if Qleb askPrice 0 then 0 else askPrice in
  let '(bidPrice, askPrice) :=
    match market this with
    | None => (bidPrice, askPrice)
    | Some m =>
        let bidPrice := roundToTick this bidPrice down in
        let askPrice := roundToTick this askPrice up in
        match orderbook with
        | None => (bidPrice, askPrice)
        | Some ob =>
            (adjustBid m (Orderbook.asks ob) bidPrice,
             adjustAsk m (Orderbook.bids ob) askPrice)
        end
    end in
  let bidSize :=
    if Qgtb bidPrice 0 then MarketMakerConfig.orderSizeUsd cfg / bidPrice else 0 in
  let askSize :=
    if Qgtb askPrice 0 then MarketMakerConfig.orderSizeUsd cfg / askPrice else 0 in
  let '(bidSize, askSize) :=
    if isCloseMode then
      if Qgtb positionNotional 0 then (0, askSize) else (bidSize, 0)
    else (bidSize, askSize) in
  let '(bidSize, askSize) :=
    match market this with
    | None => (bidSize, askSize)
    | Some _ => (roundSize this bidSize, roundSize this askSize)
    end in
  Quote.mk bidPrice askPrice bidSize askSize fairPrice spreadBps isCloseMode.

(** [quoteToOrders(quote, reduceOnly = false)] *)
Definition quoteToOrders (this : t) (quote : Quote.t) (reduceOnly : bool)
    : list OrderRequest.t :=
  let orders := [] in
  let orders :=
    if Qgtb (Quote.bidSize quote) 0 then
      orders ++ [OrderRequest.mk (MarketMakerConfig.symbol (config this))
                   buy limit (Quote.bidPrice quote) (Quote.bidSize quote)
                   true (reduceOnly || Quote.isCloseMode quote)]
    else orders in
  let orders :=
    if Qgtb (Quote.askSize quote) 0 then
      orders ++ [OrderRequest.mk (MarketMakerConfig.symbol (config this))
                   sell limit (Quote.askPrice quote) (Quote.askSize quote)
                   true (reduceOnly || Quote.isCloseMode quote)]
    else orders in
  orders.

End Quoter.

(** ** Binary64 arithmetic

    A JavaScript [number] that is finite is a rational; an operation
    returns the exact result rounded to the nearest binary64 value, ties to
    even ([round]).  Infinities, NaN, the sign of zero and overflow past
    the largest double are outside this model. *)
Module Double.

(** The integer [l] with [2^l <= x < 2^(l+1)], for [0 < x]. *)
Definition ilog2 (x : Q) : Z :=
  let l := (Z.log2 (Qnum x) - Z.log2 (Z.pos (Qden x)))%Z in
  if Qle_bool (2 ^ l) x then l else (l - 1)%Z.

(** The exponent of the unit in the last place of the doubles around
    [x]: 53 significant bits, and subnormal numbers below [2^-1022]. *)
Definition ulpExponent (x : Q) : Z := Z.max (ilog2 x - 52) (-1074).

(** The nearest integer, the even one of two that are equally near. *)
Definition nearestEven (x : Q) : Z :=
  let f := Qfloor x in
  match Qcompare (x - inject_Z f) (1 # 2) with
  | Lt => f
  | Gt => (f + 1)%Z
  | Eq => if Z.even f then f else (f + 1)%Z
  end.

(** Rounding of a magnitude. *)
Definition roundMagnitude (m : Q) : Q :=
  let e := ulpExponent m in
  inject_Z (nearestEven (m / 2 ^ e)) * 2 ^ e.

(** Round to nearest, ties to even. *)
Definition round (x : Q) : Q :=
  if Qle_bool 0 x then roundMagnitude x else - roundMagnitude (- x).

(** The values a finite double can have. *)
Definition representable (x : Q) : Prop := round x == x.

Definition add (x y : Q) : Q := round (x + y).
Definition sub (x y : Q) : Q := round (x - y).
Definition mul (x y : Q) : Q := round (x * y).
Definition div (x y : Q) : Q := round (x / y).

(** [Math.floor] and [Math.ceil] are exact. *)
Definition floor (x : Q) : Q := inject_Z (Qfloor x).
Definition ceil (x : Q) : Q := inject_Z (Qceiling x).

(** [10 ** p] for an integer [p]: the power itself for [0 <= p <= 22],
    where it is a double; beyond that the nearest double, from which the
    code's result may differ in the last place. *)
Definition pow10 (p : Z) : Q := round (10 ^ p).

(** The value of a finite hardware double. *)
Definition ofFloat (f : float) : Q :=
  match Prim2SF f with
  | S754_finite s m e =>
      (if s then - inject_Z (Z.pos m) else inject_Z (Z.pos m)) * 2 ^ e
  | _ => 0
  end.

End Double.

(** ** quoter.ts in double precision

    The arithmetic of class [Quoter] with every operation rounded as the
    code's [number]s are: the same control flow as [Quoter] above, with
    [Double.add], [Double.sub], [Double.mul] and [Double.div] for [+],
    [-], [*] and [/].  Comparisons, [Math.abs], [Math.min] and [Math.max]
    are exact on doubles.  [quoteToOrders] does no arithmetic: it is
    [Quoter.quoteToOrders] for both. *)
Module Quoter64.

(** [roundToTick(price, direction)] *)
Definition roundToTick (this : Quoter.t) (price : Q) (direction : Direction) : Q :=
  match Quoter.market this with
  | None => price
  | Some m =>
      let tickSize := Market.tickSize m in
      match direction with
      | down => Double.mul (Double.floor (Double.div price tickSize)) tickSize
      | up => Double.mul (Double.ceil (Double.div price tickSize)) tickSize
      end
  end.

(** [roundSize(size)] *)
Definition roundSize (this : Quoter.t) (size : Q) : Q :=
  match Quoter.market this with
  | None => size
  | Some m =>
      let precision := Market.sizePrecision m in
      let multiplier := Double.pow10 precision in
      Double.div (Double.ceil (Double.mul size multiplier)) multiplier
  end.

(** The post-only adjustment of the bid, lines 69-76. *)
Definition adjustBid (m : Market.t) (asks : list (Q * Q)) (bidPrice : Q) : Q :=
  match asks with
  | [] => bidPrice
  | (bestAsk, _) :: _ =>
      let maxBid := Double.sub bestAsk (Market.tickSize m) in
      if Qgeb bidPrice bestAsk then Qmin bidPrice maxBid else bidPrice
  end.

(** The post-only adjustment of the ask, lines 79-86. *)
Definition adjustAsk (m : Market.t) (bids : list (Q * Q)) (askPrice : Q) : Q :=
  match bids with
  | [] => askPrice
  | (bestBid, _) :: _ =>
      let minAsk := Double.add bestBid (Market.tickSize m) in
      if Qleb askPrice bestBid then Qmax askPrice minAsk else askPrice
  end.

(** [generateQuotes(fairPrice, positionNotional, orderbook?)] *)
Definition generateQuotes (this : Quoter.t) (fairPrice positionNotional : Q)
    (orderbook : option Orderbook.t) : Quote.t :=
  let cfg := Quoter.config this in
  let isCloseMode :=
    Qgtb (Qabs positionNotional) (MarketMakerConfig.closeThresholdUsd cfg) in
  let spreadBps :=
    if isCloseMode then MarketMakerConfig.takeProfitBps cfg
    else MarketMakerConfig.spreadBps cfg in
  let spreadMultiplier := Double.div spreadBps 10000 in
  let bidPrice := Double.mul fairPrice (Double.sub 1 spreadMultiplier) in
  let askPrice := Double.mul fairPrice (Double.add 1 spreadMultiplier) in
  let bidPrice := if Qleb bidPrice 0 then 0 else bidPrice in
  let askPrice := if Qleb askPrice 0 then 0 else askPrice in
  let '(bidPrice, askPrice) :=
    match Quoter.market this with
    | None => (bidPrice, askPrice)
    | Some m =>
        let bidPrice := roundToTick this bidPrice down in
        let askPrice := roundToTick this askPrice up in
        match orderbook with
        | None => (bidPrice, askPrice)
        | Some ob =>
            (adjustBid m (Orderbook.asks ob) bidPrice,
             adjustAsk m (Orderbook.bids ob) askPrice)
        end
    end in
  let bidSize :=
    if Qgtb bidPrice 0
    then Double.div (MarketMakerConfig.orderSizeUsd cfg) bidPrice else 0 in
  let askSize :=
    if Qgtb askPrice 0
    then Double.div (MarketMakerConfig.orderSizeUsd cfg) askPrice else 0 in
  let '(bidSize, askSize) :=
    if isCloseMode then
      if Qgtb positionNotional 0 then (0, askSize) else (bidSize, 0)
    else (bidSize, askSize) in
  let '(bidSize, askSize) :=
    match Quoter.market this with
    | None => (bidSize, askSize)
    | Some _ => (roundSize this bidSize, roundSize this askSize)
    end in
  Quote.mk bidPrice askPrice bidSize askSize fairPrice spreadBps isCloseMode.

(** [isOrderStale(orderPrice, _orderSide, fairPrice, maxDeviationBps = 50)];
    a call that leaves the last argument out passes [None]. *)
Definition isOrderStale (this : Quoter.t) (orderPrice : Q) (_orderSide : Side)
    (fairPrice : Q) (maxDeviationBps : option Q) : bool :=
  let maxDeviationBps :=
    match maxDeviationBps with Some d => d | None => 50 end in
  let deviation :=
    Double.div (Qabs (Double.sub orderPrice fairPrice)) fairPrice in
  let deviationBps := Double.mul deviation 10000 in
  Qgtb deviationBps maxDeviationBps.

End Quoter64.

(** ** orders.ts: bulk cancellation *)

Module Orders.

(** *** Strings *)

(** [s.includes(sub)] *)
Fixpoint includes (s sub : string) : bool :=
  if String.prefix sub s then true
  else match s with
       | EmptyString => false
       | String _ s' => includes s' sub
       end.

(** [s.split(sep)[0]] for a one-character separator: the text before the
    first [sep], all of [s] when there is none. *)
Fixpoint splitHead (sep : ascii) (s : string) : string :=
  match s with
  | EmptyString => EmptyString
  | String c s' =>
      if Ascii.eqb c sep then EmptyString else String c (splitHead sep s')
  end.

Definition isDigit (c : ascii) : bool :=
  let n := nat_of_ascii c in (48 <=? n)%nat && (n <=? 57)%nat.

Definition isWhiteSpace (c : ascii) : bool :=
  let n := nat_of_ascii c in
  (n =? 32)%nat || ((9 <=? n)%nat && (n <=? 13)%nat).

Fixpoint skipWhiteSpace (s : string) : string :=
  match s with
  | String c s' => if isWhiteSpace c then skipWhiteSpace s' else s
  | EmptyString => s
  end.

(** The longest prefix of decimal digits, read left to right; [None] when
    there is no digit. *)
Fixpoint digits (acc : option Z) (s : string) : option Z :=
  match s with
  | String c s' =>
      if isDigit c then
        let d := Z.of_nat (nat_of_ascii c - 48) in
        digits (Some (match acc with Some a => 10 * a + d | None => d end)%Z) s'
      else acc
  | EmptyString => acc
  end.

(** [Number.parseInt(s, 10)]; [None] is NaN. *)
Definition parseInt (s : string) : option Z :=
  match skipWhiteSpace s with
  | String "-" s' => option_map Z.opp (digits None s')
  | String "+" s' => digits None s'
  | s' => digits None s'
  end.

(** *** Data *)

(** An entry of the batch's [statuses]: the sentinel ["success"] or an
    object [{ error: string }], which is what the source casts every other
    entry to. *)
Inductive CancelStatus : Type :=
| success
| error (message : string).

(** A thrown value.  [wrapped] is [response.response.data.statuses] of an
    SDK error that wraps a response, [None] when that path is undefined. *)
Inductive Thrown : Type :=
| MarketNotFound (symbol : string)
    (* new Error(`Market not found for symbol: ${order.symbol}`) *)
| External (message : string) (wrapped : option (list CancelStatus)).

Definition wrappedStatuses (e : Thrown) : option (list CancelStatus) :=
  match e with
  | MarketNotFound _ => None
  | External _ w => w
  end.

(** Modelled from the spec: [Order] (types.js), restricted to the two
    fields [cancelAllOrders] reads. *)
Module Order.
Record t : Type := mk { id : string; symbol : string }.
End Order.

(** A record of [clients.info.openOrders], restricted to the fields that
    reach [Order.id] and [Order.symbol]. *)
Record NativeOrder : Type := { coin : string; oid : Z }.

(** [{ a: assetId, o: orderIdNum }] *)
Record Cancel : Type := { a : option Z; o : option Z }.

(** What the awaited calls answer during one run.  [getMarkets]
    (markets.js) is not among the sources and is taken as given. *)
Record HyperliquidClients : Type :=
  { info_openOrders : Thrown + list NativeOrder;
    getMarkets : Thrown + list Market.t;
    exchange_cancel : list Cancel -> Thrown + list CancelStatus }.

(** *** Log lines and the monad of a run *)

Inductive LogEntry : Type :=
| debug_fetching                       (* "Fetching open orders from Hyperliquid" *)
| debug_fetched (n : nat)              (* `Fetched ${n} open orders` *)
| error_fetch (e : Thrown)             (* "Failed to fetch Hyperliquid open orders" *)
| info_noOpenOrders                    (* "No open orders to cancel" *)
| debug_canceling (n : nat)            (* `Canceling ${n} open orders` *)
| warn_failed (orderId : option string) (message : string)
                                       (* `Failed to cancel order ${id}: ${error}` *)
| info_canceled (successCount failCount : nat)
    (* `Canceled ${successCount} orders successfully, ${failCount} failed` *)
| error_cancelAll (e : Thrown).        (* "Failed to cancel all Hyperliquid orders" *)

(** A computation writes log lines and ends by returning or throwing. *)
Definition M (A : Type) : Type := list LogEntry * (Thrown + A).

Definition ret {A} (x : A) : M A := ([], inr x).
Definition throw {A} (e : Thrown) : M A := ([], inl e).
Definition log (l : LogEntry) : M unit := ([l], inr tt).
Definition await {A} (r : Thrown + A) : M A := ([], r).

Definition bind {A B} (c : M A) (k : A -> M B) : M B :=
  match c with
  | (l, inl e) => (l, inl e)
  | (l, inr x) => let (l', r) := k x in (l ++ l', r)
  end.

(** [try { c } catch (error) { h error }] *)
Definition tryCatch {A} (c : M A) (h : Thrown -> M A) : M A :=
  match c with
  | (l, inl e) => let (l', r) := h e in (l ++ l', r)
  | (l, inr x) => (l, inr x)
  end.

Notation "x <- c ;; k" := (bind c (fun x => k))
  (at level 61, c at next level, right associativity).
Notation "c ;;; k" := (bind c (fun _ => k))
  (at level 61, right associativity).

(** [xs.map(f)] where [f] may throw: the first throw ends the map. *)
Fixpoint mapM {A B} (f : A -> M B) (xs : list A) : M (list B) :=
  match xs with
  | [] => ret []
  | x :: xs' => y <- f x ;; ys <- mapM f xs' ;; ret (y :: ys)
  end.

(** *** getOpenOrders *)

Definition getOpenOrders (clients : HyperliquidClients)
    (symbol : option string) : M (list Order.t) :=
  tryCatch
    (log debug_fetching ;;;
     response <- await (info_openOrders clients) ;;
     markets <- await (getMarkets clients) ;;
     let orders :=
       match symbol with
       | None | Some EmptyString => response
       | Some symbol =>
           let base :=
             match splitHead "/" symbol with
             | EmptyString => symbol
             | b => b
             end in
           filter (fun o => String.eqb (coin o) base) response
       end in
     let mappedOrders :=
       map (fun o =>
              let market :=
                find (fun m => String.eqb (Market.base m) (coin o)) markets in
              let fullSymbol :=
                match market with
                | Some market => Market.symbol market
                | None => (coin o ++ "/USD:USD")%string
                end in
              Order.mk (NilZero.string_of_int (Z.to_int (oid o))) fullSymbol)
           orders in
     log (debug_fetched (List.length mappedOrders)) ;;;
     ret mappedOrders)
    (fun error => log (error_fetch error) ;;; throw error).

(** *** cancelAllOrders *)

(** Lines 207-216: the cancel request of one order. *)
Definition toCancel (markets : list Market.t) (order : Order.t) : M Cancel :=
  match find (fun m => String.eqb (Market.base m)
                         (splitHead "/" (Order.symbol order))) markets with
  | None => throw (MarketNotFound (Order.symbol order))
  | Some market =>
      let assetId := parseInt (Market.id market) in
      let orderIdNum := parseInt (Order.id order) in
      ret {| a := assetId; o := orderIdNum |}
  end.

(** [errorStatus.error?.includes("already canceled, or filled")] *)
Definition isAlreadyGone (message : string) : bool :=
  includes message "already canceled, or filled".

(** The state of the [forEach] at lines 238-251: the two counters and the
    warnings written so far. *)
Record Tally : Type :=
  { successCount : nat; failCount : nat; warnings : list LogEntry }.

(** One call of the [forEach] callback. *)
Definition classify (openOrders : list Order.t) (t : Tally)
    (cancelStatus : CancelStatus) (index : nat) : Tally :=
  match cancelStatus with
  | success =>
      {| successCount := S (successCount t); failCount := failCount t;
         warnings := warnings t |}
  | error message =>
      if isAlreadyGone message then
        {| successCount := S (successCount t); failCount := failCount t;
           warnings := warnings t |}
      else
        {| successCount := successCount t; failCount := S (failCount t);
           warnings := warnings t ++
             [warn_failed (option_map Order.id (nth_error openOrders index))
                message] |}
  end.

Fixpoint forEach (openOrders : list Order.t) (statuses : list CancelStatus)
    (index : nat) (t : Tally) : Tally :=
  match statuses with
  | [] => t
  | cancelStatus :: rest =>
      forEach openOrders rest (S index) (classify openOrders t cancelStatus index)
  end.

Definition cancelAllOrders (clients : HyperliquidClients)
    (symbol : option string) : M unit :=
  tryCatch
    (openOrders <- getOpenOrders clients symbol ;;
     if (List.length openOrders =? 0)%nat then
       log info_noOpenOrders ;;; ret tt
     else
       log (debug_canceling (List.length openOrders)) ;;;
       markets <- await (getMarkets clients) ;;
       cancels <- mapM (toCancel markets) openOrders ;;
       statuses <-
         tryCatch
           (await (exchange_cancel clients cancels))
           (fun error =>
              match wrappedStatuses error with
              | Some statuses => ret statuses
              | None => log (error_cancelAll error) ;;; throw error
              end) ;;
       let t := forEach openOrders statuses 0
                  {| successCount := 0; failCount := 0; warnings := [] |} in
       (warnings t, inr tt) ;;;
       log (info_canceled (successCount t) (failCount t)))
    (fun error => log (error_cancelAll error) ;;; throw error).

(** *** cancelOrder and placeOrder

    Besides returning or throwing, both functions only write to the log,
    and their [try]/[catch] logs and rethrows; they are modelled by how
    they end.  [new Error(message)] is [External message None]: a thrown
    value that wraps no response. *)

Definition Result (A : Type) : Type := (Thrown + A)%type.

Definition Error {A} (message : string) : Result A :=
  inl (External message None).

Definition andThen {A B} (r : Result A) (k : A -> Result B) : Result B :=
  match r with
  | inl e => inl e
  | inr x => k x
  end.

Notation "'let?' x := r 'in' k" := (andThen r (fun x => k))
  (at level 10, x name, r at level 100, k at level 200).

(** [markets.find((m) => m.symbol === symbol || m.base === symbol.split("/")[0])] *)
Definition findMarket (markets : list Market.t) (symbol : string)
    : option Market.t :=
  find (fun m => String.eqb (Market.symbol m) symbol
                 || String.eqb (Market.base m) (splitHead "/" symbol)) markets.

(** [cancelOrder(clients, orderId, symbol?)] *)
Definition cancelOrder (clients : HyperliquidClients) (orderId : string)
    (symbol : option string) : Result unit :=
  let? markets := getMarkets clients in
  let? assetId :=
    match symbol with
    | Some (String _ _ as symbol) =>
        match findMarket markets symbol with
        | None => inl (MarketNotFound symbol)
        | Some market => inr (parseInt (Market.id market))
        end
    | _ =>
        let? openOrders := snd (getOpenOrders clients None) in
        match find (fun o => String.eqb (Order.id o) orderId) openOrders with
        | None => Error ("Order not found: " ++ orderId)
        | Some order =>
            match find (fun m => String.eqb (Market.base m)
                                   (splitHead "/" (Order.symbol order)))
                    markets with
            | None => Error ("Market not found for order: " ++ orderId)
            | Some market => inr (parseInt (Market.id market))
            end
        end
    end in
  let orderIdNum := parseInt orderId in
  let? statuses :=
    exchange_cancel clients [ {| a := assetId; o := orderIdNum |} ] in
  match nth_error statuses 0 with
  | None => Error "No cancellation status in response"
  | Some success => inr tt
  | Some (error message) =>
      Error ("Order cancellation failed: " ++ message)
  end.

(** The integer [n] of [Number.prototype.toFixed]: the one for which
    [n / 10^f - x] is closest to zero, the larger one when there are two. *)
Definition nearestInteger (x : Q) : Z := Qfloor (x + (1 # 2)).

Fixpoint zeros (k : nat) : string :=
  match k with
  | O => EmptyString
  | S k' => String "0" (zeros k')
  end.

(** [x.toFixed(fractionDigits)] for [|x| < 10^21] (beyond that JavaScript
    switches to exponent notation, which is outside the model); the
    RangeError carries V8's message. *)
Definition toFixed (x : Q) (fractionDigits : Z) : Result string :=
  if ((fractionDigits <? 0) || (100 <? fractionDigits))%Z then
    Error "toFixed() digits argument must be between 0 and 100"
  else
    let f := Z.to_nat fractionDigits in
    let n := nearestInteger (Qabs x * 10 ^ fractionDigits) in
    let m := NilZero.string_of_uint (N.to_uint (Z.to_N n)) in
    let m :=
      if (f =? 0)%nat then m
      else
        let k := String.length m in
        let m := if (k <=? f)%nat then (zeros (f + 1 - k) ++ m)%string else m in
        let k := String.length m in
        (substring 0 (k - f) m ++ "." ++ substring (k - f) f m)%string in
    inr (if Qgtb 0 x then ("-" ++ m)%string else m).

Inductive Tif : Type := Alo | Gtc.
Inductive Grouping : Type := na.

(** The argument of [clients.exchange.order]. *)
Module OrderParams.
Record order : Type :=
  { a : option Z;          (* asset id *)
    b : bool;              (* true for buy *)
    p : string;            (* price *)
    s : string;            (* size *)
    r : bool;              (* reduce-only *)
    t : Tif;               (* { limit: { tif } } *)
    c : option string }.   (* client order id *)
Record batch : Type := mk { orders : list order; grouping : Grouping }.
End OrderParams.

(** An entry of [response.response.data.statuses] of an order request: a
    string, [{ error }], [{ resting: { oid, cloid } }],
    [{ filled: { oid, cloid, totalSz, avgPx } }], or any other object, kept
    as its JSON text. *)
Inductive OrderStatus : Type :=
| statusString (status : string)
| statusError (message : string)
| statusResting (oid : Z) (cloid : option string)
| statusFilled (oid : Z) (cloid : option string) (totalSz avgPx : string)
| statusOther (json : string).

Inductive OrderState : Type := open | closed.

(** Modelled from the spec: [OrderResult] (types.js): "orderId, optional
    clientId, status (open|closed), timestamp, raw exchange payload". *)
Module OrderResult.
Record t : Type := mk
  { orderId : string;
    clientId : option string;
    status : OrderState;
    timestamp : Z;
    raw : list OrderStatus }.
End OrderResult.

(** Lines 25-51: the request for one order on a market that was found. *)
Definition orderParams (market : Market.t) (order : OrderRequest.t)
    (clientId : option string) : Result OrderParams.batch :=
  let assetId := parseInt (Market.id market) in
  let tif := if OrderRequest.postOnly order then Alo else Gtc in
  let? priceStr :=
    toFixed (OrderRequest.price order) (Market.pricePrecision market) in
  let? sizeStr :=
    toFixed (OrderRequest.size order) (Market.sizePrecision market) in
  inr (OrderParams.mk
         [ {| OrderParams.a := assetId;
              OrderParams.b :=
                match OrderRequest.side order with buy => true | sell => false end;
              OrderParams.p := priceStr;
              OrderParams.s := sizeStr;
              OrderParams.r := OrderRequest.reduceOnly order;
              OrderParams.t := tif;
              OrderParams.c := clientId |} ]
         na).

(** Lines 60-110: from the statuses of the response to the result. *)
Definition orderResult (now : Z) (statuses : list OrderStatus)
    : Result OrderResult.t :=
  match nth_error statuses 0 with
  | None | Some (statusString EmptyString) =>
      Error "No order status in response"
  | Some (statusString status) =>
      if String.eqb status "waitingForFill" then
        Error "Order status 'waitingForFill' - order ID not available yet"
      else if String.eqb status "waitingForTrigger" then
        Error "Order status 'waitingForTrigger' - unexpected for limit orders"
      else Error ("Unknown order status: " ++ status)
  | Some (statusError message) => Error ("Order rejected: " ++ message)
  | Some (statusResting oid cloid) =>
      inr (OrderResult.mk (NilZero.string_of_int (Z.to_int oid)) cloid open
             now statuses)
  | Some (statusFilled oid cloid _ _) =>
      inr (OrderResult.mk (NilZero.string_of_int (Z.to_int oid)) cloid closed
             now statuses)
  | Some (statusOther json) => Error ("Unknown order status: " ++ json)
  end.

(** [placeOrder(clients, order)].  [exchange_order] is
    [clients.exchange.order], [now] what [Date.now()] answers and [clientId]
    the request's optional [clientId]; an absent [postOnly] or [reduceOnly]
    behaves as [false]. *)
Definition placeOrder (clients : HyperliquidClients)
    (exchange_order : OrderParams.batch -> Result (list OrderStatus)) (now : Z)
    (order : OrderRequest.t) (clientId : option string)
    : Result OrderResult.t :=
  let? markets := getMarkets clients in
  match findMarket markets (OrderRequest.symbol order) with
  | None => inl (MarketNotFound (OrderRequest.symbol order))
  | Some market =>
      let? params := orderParams market order clientId in
      let? response := exchange_order params in
      orderResult now response
  end.

End Orders.

(** * Specification-side definitions *)

(** ** The fields of a quote, one by one

    [generateQuotes] updates [bidPrice], [askPrice], [bidSize] and [askSize]
    in place; the functions below give the final value of each. *)

Section Fields.
Variable this : Quoter.t.
Variables fairPrice positionNotional : Q.
Variable orderbook : option Orderbook.t.

Let cfg := Quoter.config this.

Definition closeMode : bool :=
  Qgtb (Qabs positionNotional) (MarketMakerConfig.closeThresholdUsd cfg).

Definition appliedSpread : Q :=
  if closeMode then MarketMakerConfig.takeProfitBps cfg
  else MarketMakerConfig.spreadBps cfg.

Definition clamp0 (p : Q) : Q := if Qleb p 0 then 0 else p.

Definition rawBid : Q := clamp0 (fairPrice * (1 - appliedSpread / 10000)).
Definition rawAsk : Q := clamp0 (fairPrice * (1 + appliedSpread / 10000)).

Definition finalBid : Q :=
  match Quoter.market this, orderbook with
  | None, _ => rawBid
  | Some _, None => Quoter.roundToTick this rawBid down
  | Some m, Some ob =>
      Quoter.adjustBid m (Orderbook.asks ob) (Quoter.roundToTick this rawBid down)
  end.

Definition finalAsk : Q :=
  match Quoter.market this, orderbook with
  | None, _ => rawAsk
  | Some _, None => Quoter.roundToTick this rawAsk up
  | Some m, Some ob =>
      Quoter.adjustAsk m (Orderbook.bids ob) (Quoter.roundToTick this rawAsk up)
  end.

Definition sizeAt (price : Q) : Q :=
  if Qgtb price 0 then MarketMakerConfig.orderSizeUsd cfg / price else 0.

Definition bidSuppressed : bool := closeMode && Qgtb positionNotional 0.
Definition askSuppressed : bool := closeMode && negb (Qgtb positionNotional 0).

Definition finalBidSize : Q :=
  Quoter.roundSize this (if bidSuppressed then 0 else sizeAt finalBid).
Definition finalAskSize : Q :=
  Quoter.roundSize this (if askSuppressed then 0 else sizeAt finalAsk).
End Fields.

(** ** The fields of a quote in double precision

    The final value of each field of [Quoter64.generateQuotes]; the mode
    and the spread are the exact comparisons [closeMode] and
    [appliedSpread] above. *)

Section DoubleFields.
Variable this : Quoter.t.
Variables fairPrice positionNotional : Q.
Variable orderbook : option Orderbook.t.

Let cfg := Quoter.config this.
Let spread := appliedSpread this positionNotional.

(** Lines 54-59: the prices before any rounding to the tick. *)
Definition doubleRawBid : Q :=
  clamp0 (Double.mul fairPrice (Double.sub 1 (Double.div spread 10000))).
Definition doubleRawAsk : Q :=
  clamp0 (Double.mul fairPrice (Double.add 1 (Double.div spread 10000))).

(** Lines 63-64. *)
Definition doubleRoundedBid : Q := Quoter64.roundToTick this doubleRawBid down.
Definition doubleRoundedAsk : Q := Quoter64.roundToTick this doubleRawAsk up.

Definition doubleBid : Q :=
  match Quoter.market this, orderbook with
  | Some m, Some ob => Quoter64.adjustBid m (Orderbook.asks ob) doubleRoundedBid
  | _, _ => doubleRoundedBid
  end.

Definition doubleAsk : Q :=
  match Quoter.market this, orderbook with
  | Some m, Some ob => Quoter64.adjustAsk m (Orderbook.bids ob) doubleRoundedAsk
  | _, _ => doubleRoundedAsk
  end.

Definition doubleSizeAt (price : Q) : Q :=
  if Qgtb price 0
  then Double.div (MarketMakerConfig.orderSizeUsd cfg) price else 0.

Definition doubleBidSize : Q :=
  Quoter64.roundSize this
    (if bidSuppressed this positionNotional then 0 else doubleSizeAt doubleBid).
Definition doubleAskSize : Q :=
  Quoter64.roundSize this
    (if askSuppressed this positionNotional then 0 else doubleSizeAt doubleAsk).
End DoubleFields.



(** The data model's "tickSize > 0", for whatever metadata is set. *)
Definition tickPositive (this : Quoter.t) : Prop :=
  match Quoter.market this with
  | None => True
  | Some m => 0 < Market.tickSize m
  end.


(** The best ask, when metadata and a non-empty ask side are present, is
    not below one tick. *)
Definition bestAskAtLeastTick (this : Quoter.t)
    (orderbook : option Orderbook.t) : Prop :=
  match Quoter.market this, orderbook with
  | Some m, Some ob =>
      match Orderbook.asks ob with
      | (bestAsk, _) :: _ => Market.tickSize m <= bestAsk
      | [] => True
      end
  | _, _ => True
  end.


(** The request for one side of a quote. *)
Definition sideOrder (this : Quoter.t) (quote : Quote.t) (reduceOnly : bool)
    (side : Side) : OrderRequest.t :=
  OrderRequest.mk (MarketMakerConfig.symbol (Quoter.config this)) side limit
    (match side with buy => Quote.bidPrice quote | sell => Quote.askPrice quote end)
    (match side with buy => Quote.bidSize quote | sell => Quote.askSize quote end)
    true (reduceOnly || Quote.isCloseMode quote).

(** An entry counts as successful when it is the success sentinel or an
    error whose message says the order was already canceled or filled. *)
Definition countsAsSuccess (st : Orders.CancelStatus) : bool :=
  match st with
  | Orders.success => true
  | Orders.error message => Orders.isAlreadyGone message
  end.

Definition successes (statuses : list Orders.CancelStatus) : nat :=
  List.length (filter countsAsSuccess statuses).

Definition failures (statuses : list Orders.CancelStatus) : nat :=
  List.length (filter (fun st => negb (countsAsSuccess st)) statuses).

(** One warning per failed entry, in the order of the batch, naming the
    order at the entry's position (if any) and the exchange's message. *)
Fixpoint failureReports (openOrders : list Orders.Order.t)
    (statuses : list Orders.CancelStatus) (index : nat) : list Orders.LogEntry :=
  match statuses with
  | [] => []
  | st :: rest =>
      (match st with
       | Orders.error message =>
           if Orders.isAlreadyGone message then []
           else [Orders.warn_failed
                   (option_map Orders.Order.id (nth_error openOrders index))
                   message]
       | Orders.success => []
       end) ++ failureReports openOrders rest (S index)
  end.

(** The per-order statuses a batch answer carries, on either path. *)
Definition statusesOf (answer : Orders.Thrown + list Orders.CancelStatus)
    : option (list Orders.CancelStatus) :=
  match answer with
  | inr statuses => Some statuses
  | inl e => Orders.wrappedStatuses e
  end.

(** The run of [cancelAllOrders], stage by stage: what is logged and how it
    ends, by the answer of each awaited call. *)
Definition cancelAllStages (clients : Orders.HyperliquidClients)
    (symbol : option string) : Orders.M unit :=
  match Orders.getOpenOrders clients symbol with
  | (l0, inl e) => (l0 ++ [Orders.error_cancelAll e], inl e)
  | (l0, inr []) => (l0 ++ [Orders.info_noOpenOrders], inr tt)
  | (l0, inr openOrders) =>
      let started := l0 ++ [Orders.debug_canceling (List.length openOrders)] in
      match Orders.getMarkets clients with
      | inl e => (started ++ [Orders.error_cancelAll e], inl e)
      | inr markets =>
          match Orders.mapM (Orders.toCancel markets) openOrders with
          | (l1, inl e) => (started ++ l1 ++ [Orders.error_cancelAll e], inl e)
          | (l1, inr cancels) =>
              let summary statuses :=
                (started ++ l1 ++ failureReports openOrders statuses 0 ++
                 [Orders.info_canceled (successes statuses) (failures statuses)],
                 inr tt) in
              match Orders.exchange_cancel clients cancels with
              | inr statuses => summary statuses
              | inl e =>
                  match Orders.wrappedStatuses e with
                  | Some statuses => summary statuses
                  | None =>
                      (started ++ l1 ++
                       [Orders.error_cancelAll e; Orders.error_cancelAll e],
                       inl e)
                  end
              end
          end
      end
  end.

(** [n.toString()] of an integer. *)
Definition toString (z : Z) : string := NilZero.string_of_int (Z.to_int z).

(** The native orders [getOpenOrders] keeps for a symbol filter. *)
Definition selected (symbol : option string)
    (response : list Orders.NativeOrder) : list Orders.NativeOrder :=
  match symbol with
  | None | Some EmptyString => response
  | Some symbol =>
      let base :=
        match Orders.splitHead "/" symbol with
        | EmptyString => symbol
        | b => b
        end in
      filter (fun o => String.eqb (Orders.coin o) base) response
  end.

(** The market that lists a coin, if any. *)
Definition marketOf (markets : list Market.t) (coin : string) : option Market.t :=
  find (fun m => String.eqb (Market.base m) coin) markets.

(** A market's symbol starts with its base, up to the first "/" (as in
    "BTC/USD:USD" for base "BTC"). *)
Definition marketsWellFormed (markets : list Market.t) : Prop :=
  Forall (fun m => Orders.splitHead "/" (Market.symbol m) = Market.base m)
    markets.

(** The batch cancel a run of [cancelAllOrders] sends for these native
    orders. *)
Definition cancelsFor (markets : list Market.t)
    (natives : list Orders.NativeOrder) : list Orders.Cancel :=
  map (fun n =>
         {| Orders.a :=
              match marketOf markets (Orders.coin n) with
              | Some mk => Orders.parseInt (Market.id mk)
              | None => None
              end;
            Orders.o := Some (Orders.oid n) |})
      natives.

(** ** Fixtures for the concrete runs *)

Definition exampleConfig : MarketMakerConfig.t :=
  MarketMakerConfig.mk "BTC/USD:USD" 10 5 500 100.

Definition exampleMarket : Market.t :=
  Market.mk "0" "BTC/USD:USD" "BTC" 1 2 0.

Definition bareQuoter : Quoter.t := Quoter.new exampleConfig.
Definition exampleQuoter : Quoter.t := Quoter.setMarket bareQuoter exampleMarket.

Definition crossedBook : Orderbook.t := Orderbook.mk [(101, 1)] [(99, 1)].
Definition lowAskBook : Orderbook.t := Orderbook.mk [] [(1 # 2, 1)].
Definition cheapAskBook : Orderbook.t := Orderbook.mk [] [(50, 1)].

Definition timedOut : Orders.Thrown := Orders.External "request timed out" None.
Definition alreadyGone : Orders.CancelStatus :=
  Orders.error "Order was never placed, already canceled, or filled.".

Definition mixedStatuses : list Orders.CancelStatus :=
  [Orders.error "Insufficient margin"; Orders.success; alreadyGone].

Definition ethMarket : Market.t := Market.mk "1" "ETH/USD:USD" "ETH" (1 # 10) 3 1.

(** Two open orders, both on known markets; the batch cancel answers
    [answer] whatever it is sent. *)
Definition exampleClients (answer : Orders.Thrown + list Orders.CancelStatus)
    : Orders.HyperliquidClients :=
  {| Orders.info_openOrders :=
       inr [ {| Orders.coin := "BTC"; Orders.oid := 12 |};
             {| Orders.coin := "ETH"; Orders.oid := 7 |} ];
     Orders.getMarkets := inr [exampleMarket; ethMarket];
     Orders.exchange_cancel := fun _ => answer |}.

(** One open order on a coin that no market lists. *)
Definition unlistedClients (answer : Orders.Thrown + list Orders.CancelStatus)
    : Orders.HyperliquidClients :=
  {| Orders.info_openOrders := inr [ {| Orders.coin := "DOGE"; Orders.oid := 3 |} ];
     Orders.getMarkets := inr [exampleMarket; ethMarket];
     Orders.exchange_cancel := fun _ => answer |}.

(** One open order, on a listed coin. *)
Definition oneOrderClients (answer : Orders.Thrown + list Orders.CancelStatus)
    : Orders.HyperliquidClients :=
  {| Orders.info_openOrders := inr [ {| Orders.coin := "BTC"; Orders.oid := 12 |} ];
     Orders.getMarkets := inr [exampleMarket; ethMarket];
     Orders.exchange_cancel := fun _ => answer |}.

Definition restingBid : OrderRequest.t :=
  OrderRequest.mk "BTC/USD:USD" buy limit 99 (102 # 100) true false.

(** Metadata with the tick [0.01] and two decimals of size. *)
Definition centMarket : Market.t :=
  Market.mk "0" "BTC/USD:USD" "BTC" (Double.ofFloat 0.01) 2 2.
Definition centQuoter : Quoter.t := Quoter.setMarket bareQuoter centMarket.

(** Pairs of machine doubles on which the model is compared with the
    hardware's arithmetic. *)
Definition hardwareSamples : list (float * float) :=
  [ (100, 99.9); (1.0010010010010009, 99.9); (10, 10000); (1, 0.001);
    (0.07, 0.01); (0.0685, 0.01); (7, 0.01); (8, 0.01); (299.7, 0.1);
    (2996, 0.1); (200.1, 0.1); (2001, 0.1); (29, 25); (1.16, 25);
    (1.16, 100); (116, 100); (109, 100); (1.09, 100); (1700, 0.999);
    (1698.3, 0.1); (8261.73, 0.01); (1008.88788, 1007.88);
    (0.0010000000000000009, 10000); (3, 1.5); (5e-324, 3);
    (2.2250738585072014e-308, 0.5); (9007199254740993, 1);
    (1e300, 1e-8); (-7.25, 0.3); (0.1, -0.2) ]%float.

(** More pairs, drawn from a linear congruential sequence: [sampleFloat n]
    is the double whose sign, 53-bit mantissa and exponent are cut out of
    [n]. *)
Definition sampleFloat (n : Z) : float :=
  SF2Prim (S754_finite (Z.odd (n / 2 ^ 60))
             (Z.to_pos (2 ^ 52 + n mod 2 ^ 52)) ((n / 2 ^ 52) mod 120 - 110)).

Definition nextSeed (n : Z) : Z :=
  ((n * 6364136223846793005 + 1442695040888963407) mod 2 ^ 64)%Z.

Fixpoint samplePairs (count : nat) (seed : Z) : list (float * float) :=
  match count with
  | O => []
  | S count' =>
      (sampleFloat seed, sampleFloat (nextSeed seed))
      :: samplePairs count' (nextSeed (nextSeed seed))
  end.

Definition agreesWithHardware (x y : float) : bool :=
  Qeq_bool (Double.add (Double.ofFloat x) (Double.ofFloat y))
    (Double.ofFloat (x + y)) &&
  Qeq_bool (Double.sub (Double.ofFloat x) (Double.ofFloat y))
    (Double.ofFloat (x - y)) &&
  Qeq_bool (Double.mul (Double.ofFloat x) (Double.ofFloat y))
    (Double.ofFloat (x * y)) &&
  Qeq_bool (Double.div (Double.ofFloat x) (Double.ofFloat y))
    (Double.ofFloat (x / y)).

(** ** Reading a decimal text *)

(** The number a decimal text denotes.  [readDecimal s acc frac] reads the
    rest [s] of a text of digits with at most one ".": [acc] is the integer
    the digits read so far spell and [frac] how many of them came after
    the point ([None] before it); the result is the integer all digits
    spell and the number of digits after the point. *)
Fixpoint readDecimal (s : string) (acc : Z) (frac : option nat)
    : option (Z * nat) :=
  match s with
  | EmptyString => Some (acc, match frac with Some k => k | None => O end)
  | String c s' =>
      if Orders.isDigit c then
        readDecimal s' (10 * acc + Z.of_nat (nat_of_ascii c - 48))
          (option_map S frac)
      else if Ascii.eqb c "." then
        match frac with
        | None => readDecimal s' acc (Some O)
        | Some _ => None
        end
      else None
  end.

Definition unsignedValue (s : string) : option Q :=
  match readDecimal s 0 None with
  | Some (n, k) => Some (inject_Z n / 10 ^ Z.of_nat k)
  | None => None
  end.

(** An optional "-", then digits with at most one ".". *)
Definition decimalValue (s : string) : option Q :=
  match s with
  | String c s' =>
      if Ascii.eqb c "-" then option_map Qopp (unsignedValue s')
      else unsignedValue s
  | EmptyString => None
  end.

Fixpoint digitsOnly (s : string) : bool :=
  match s with
  | EmptyString => true
  | String c s' => Orders.isDigit c && digitsOnly s'
  end.

Fixpoint digitsNumber (acc : Z) (s : string) : Z :=
  match s with
  | EmptyString => acc
  | String c s' =>
      digitsNumber (10 * acc + Z.of_nat (nat_of_ascii c - 48)) s'
  end.

(** * Properties *)

(** ** The comparisons against the order of [Q] *)

Lemma Qleb_true x y : Qleb x y = true <-> x <= y.
Proof. apply Qle_bool_iff. Qed.

Lemma Qleb_false x y : Qleb x y = false <-> y < x.
Proof.
  unfold Qleb. rewrite <- not_true_iff_false, Qle_bool_iff.
  split; [apply Qnot_le_lt | apply Qlt_not_le].
Qed.

Lemma Qgeb_true x y : Qgeb x y = true <-> y <= x.
Proof. apply Qle_bool_iff. Qed.

Lemma Qgeb_false x y : Qgeb x y = false <-> x < y.
Proof. apply Qleb_false. Qed.

Lemma Qgtb_true x y : Qgtb x y = true <-> y < x.
Proof. unfold Qgtb. rewrite negb_true_iff. apply Qleb_false. Qed.

Lemma Qgtb_false x y : Qgtb x y = false <-> x <= y.
Proof. unfold Qgtb. rewrite negb_false_iff. apply Qle_bool_iff. Qed.

(** Case analysis on a comparison, leaving the order fact in the context. *)
Ltac cmp_cases :=
  match goal with
  | |- context [Qleb ?x ?y] =>
      let E := fresh "E" in
      destruct (Qleb x y) eqn:E;
      [apply Qleb_true in E | apply Qleb_false in E]
  | |- context [Qgeb ?x ?y] =>
      let E := fresh "E" in
      destruct (Qgeb x y) eqn:E;
      [apply Qgeb_true in E | apply Qgeb_false in E]
  | |- context [Qgtb ?x ?y] =>
      let E := fresh "E" in
      destruct (Qgtb x y) eqn:E;
      [apply Qgtb_true in E | apply Qgtb_false in E]
  end.

(** ** The two post-only adjustments *)

Section PostOnly.
Variable m : Market.t.
Hypothesis tick_pos : 0 < Market.tickSize m.


End PostOnly.

(** ** Rounding *)

Lemma ten_power_pos (p : Z) : 0 < 10 ^ p.
Proof. apply Qpower_0_lt. reflexivity. Qed.

Section RoundSize.
Variable this : Quoter.t.

Lemma roundSize_ge size : size <= Quoter.roundSize this size.
Proof.
  unfold Quoter.roundSize. destruct (Quoter.market this) as [m|]; [|apply Qle_refl].
  apply Qle_shift_div_l; [apply ten_power_pos | apply Qle_ceiling].
Qed.

Lemma roundSize_zero : Quoter.roundSize this 0 == 0.
Proof.
  unfold Quoter.roundSize. destruct (Quoter.market this) as [m|]; [|reflexivity].
  assert (H : 0 * 10 ^ Market.sizePrecision m == 0) by ring.
  rewrite (Qceiling_comp _ _ H). reflexivity.
Qed.

Lemma roundSize_nonneg size : 0 <= size -> 0 <= Quoter.roundSize this size.
Proof. intros H. apply Qle_trans with size; [assumption | apply roundSize_ge]. Qed.

End RoundSize.

Section RoundToTick.
Variable this : Quoter.t.
Variable m : Market.t.
Hypothesis market_set : Quoter.market this = Some m.
Hypothesis tick_pos : 0 < Market.tickSize m.

Let tick := Market.tickSize m.

Lemma quotient_nonneg price : 0 <= price -> 0 <= price / tick.
Proof.
  intros H. apply Qle_shift_div_l; [exact tick_pos|]. lra.
Qed.

(** Rounding down a nonnegative price lands on a nonnegative multiple. *)
Lemma roundToTick_down_multiple price :
  0 <= price ->
  exists k : Z, (0 <= k)%Z /\
    Quoter.roundToTick this price down = inject_Z k * tick.
Proof.
  intros H. unfold Quoter.roundToTick. rewrite market_set. fold tick.
  exists (Qfloor (price / tick)). split; [|reflexivity].
  change 0%Z with (Qfloor 0). apply Qfloor_resp_le, quotient_nonneg, H.
Qed.

Lemma roundToTick_up_nonneg price :
  0 <= price -> 0 <= Quoter.roundToTick this price up.
Proof.
  intros H. unfold Quoter.roundToTick. rewrite market_set. fold tick.
  apply Qmult_le_0_compat; [|unfold tick; lra].
  change 0 with (inject_Z 0). rewrite <- Zle_Qle.
  change 0%Z with (Qceiling 0). apply Qceiling_resp_le, quotient_nonneg, H.
Qed.
End RoundToTick.

(** ** The fields of a quote, one by one *)

(** [generateQuotes] returns exactly these fields. *)
Lemma generateQuotes_fields this fairPrice positionNotional orderbook :
  Quoter.generateQuotes this fairPrice positionNotional orderbook
  = Quote.mk (finalBid this fairPrice positionNotional orderbook)
      (finalAsk this fairPrice positionNotional orderbook)
      (finalBidSize this fairPrice positionNotional orderbook)
      (finalAskSize this fairPrice positionNotional orderbook)
      fairPrice (appliedSpread this positionNotional)
      (closeMode this positionNotional).
Proof.
  unfold Quoter.generateQuotes, finalBidSize, finalAskSize, bidSuppressed,
    askSuppressed, finalBid, finalAsk, rawBid, rawAsk, clamp0, appliedSpread,
    closeMode, sizeAt, Quoter.roundSize.
  destruct (Quoter.market this) as [m|]; destruct orderbook as [ob|];
    destruct (Qgtb (Qabs positionNotional) _);
    destruct (Qgtb positionNotional 0); reflexivity.
Qed.



(** C2.  Close mode is exactly "|positionNotional| > closeThresholdUsd", so
    a position at the threshold is not in close mode, and the quote's
    spreadBps is takeProfitBps in close mode and the configured spreadBps
    otherwise. *)
Theorem close_mode_threshold this fairPrice positionNotional orderbook :
  let cfg := Quoter.config this in
  let q := Quoter.generateQuotes this fairPrice positionNotional orderbook in
  (Quote.isCloseMode q = true <->
     MarketMakerConfig.closeThresholdUsd cfg < Qabs positionNotional) /\
  (Qabs positionNotional == MarketMakerConfig.closeThresholdUsd cfg ->
     Quote.isCloseMode q = false) /\
  Quote.spreadBps q =
    (if Quote.isCloseMode q then MarketMakerConfig.takeProfitBps cfg
     else MarketMakerConfig.spreadBps cfg).
Proof.
  intros cfg q. subst q. rewrite generateQuotes_fields.
  cbn [Quote.isCloseMode Quote.spreadBps]. unfold appliedSpread, closeMode.
  fold cfg. repeat split.
  - apply Qgtb_true.
  - apply Qgtb_true.
  - intros H. apply Qgtb_false. rewrite H. apply Qle_refl.
Qed.

Lemma close_mode_threshold_witness :
  Quote.isCloseMode (Quoter.generateQuotes exampleQuoter 100 (-500) None) = false.
Proof.
  apply (close_mode_threshold exampleQuoter 100 (-500) None).
  reflexivity.
Defined.

(** ** Sizes *)

Section Sizes.
Variable this : Quoter.t.
Let usd := MarketMakerConfig.orderSizeUsd (Quoter.config this).

Lemma sizeAt_nonneg price : 0 <= usd -> 0 <= sizeAt this price.
Proof.
  intros H. unfold sizeAt. fold usd. cmp_cases; [|apply Qle_refl].
  apply Qle_shift_div_l; [assumption | lra].
Qed.


Lemma sizeAt_nonpos price : price <= 0 -> sizeAt this price = 0.
Proof. intros H. unfold sizeAt. cmp_cases; [lra | reflexivity]. Qed.

End Sizes.




(** ** Signs *)

Lemma clamp0_nonneg p : 0 <= clamp0 p.
Proof. unfold clamp0. cmp_cases; lra. Qed.

Lemma finalAsk_nonneg this fairPrice positionNotional orderbook :
  tickPositive this ->
  0 <= finalAsk this fairPrice positionNotional orderbook.
Proof.
  unfold tickPositive, finalAsk. intros Ht.
  destruct (Quoter.market this) as [m|] eqn:Hm; [|apply clamp0_nonneg].
  assert (H : 0 <= Quoter.roundToTick this
                     (rawAsk this fairPrice positionNotional) up)
    by (apply (roundToTick_up_nonneg this m Hm Ht), clamp0_nonneg).
  destruct orderbook as [ob|]; [|exact H].
  unfold Quoter.adjustAsk. destruct (Orderbook.bids ob) as [|[bestBid sz] rest];
    [exact H|].
  cmp_cases; [|exact H].
  eapply Qle_trans; [exact H | apply Q.le_max_l].
Qed.

Lemma finalBid_nonneg this fairPrice positionNotional orderbook :
  tickPositive this ->
  bestAskAtLeastTick this orderbook ->
  0 <= finalBid this fairPrice positionNotional orderbook.
Proof.
  unfold tickPositive, bestAskAtLeastTick, finalBid. intros Ht Hb.
  destruct (Quoter.market this) as [m|] eqn:Hm; [|apply clamp0_nonneg].
  destruct (roundToTick_down_multiple this m Hm Ht
              (rawBid this fairPrice positionNotional) (clamp0_nonneg _))
    as [k [Hk Hr]].
  assert (H : 0 <= Quoter.roundToTick this
                     (rawBid this fairPrice positionNotional) down).
  { rewrite Hr. apply Qmult_le_0_compat; [|lra].
    change 0 with (inject_Z 0). now rewrite <- Zle_Qle. }
  destruct orderbook as [ob|]; [|exact H].
  unfold Quoter.adjustBid. destruct (Orderbook.asks ob) as [|[bestAsk sz] rest];
    [exact H|].
  cmp_cases; [|exact H].
  apply Q.min_glb; [exact H | lra].
Qed.

(** C5, as stated, fails on the bid price: metadata with tick 1 and a best
    ask of 1/2 move a bid of 1 down to 1/2 - 1, which is negative. *)
Lemma bid_price_can_be_negative :
  ~ 0 <= Quote.bidPrice
           (Quoter.generateQuotes exampleQuoter 2 0 (Some lowAskBook)).
Proof. intros H. vm_compute in H. apply H. reflexivity. Qed.

(** C5, amended.  For every input, askPrice, bidSize and askSize are
    nonnegative; bidPrice is nonnegative unless the post-only adjustment
    meets a best ask below one tick, that is, whenever there is no metadata,
    no orderbook, no ask, or the best ask is at least tickSize; and a bid
    price that is not positive always comes with a bid size of 0. *)
Theorem quote_nonnegativity this fairPrice positionNotional orderbook :
  tickPositive this ->
  0 <= MarketMakerConfig.orderSizeUsd (Quoter.config this) ->
  let q := Quoter.generateQuotes this fairPrice positionNotional orderbook in
  0 <= Quote.askPrice q /\ 0 <= Quote.bidSize q /\ 0 <= Quote.askSize q /\
  (bestAskAtLeastTick this orderbook -> 0 <= Quote.bidPrice q) /\
  (Quote.bidPrice q <= 0 -> Quote.bidSize q == 0).
Proof.
  intros Ht Husd q. subst q. rewrite generateQuotes_fields.
  cbn [Quote.bidSize Quote.askSize Quote.bidPrice Quote.askPrice].
  unfold finalBidSize, finalAskSize.
  repeat split.
  - now apply finalAsk_nonneg.
  - apply roundSize_nonneg. destruct (bidSuppressed _ _);
      [apply Qle_refl | now apply sizeAt_nonneg].
  - apply roundSize_nonneg. destruct (askSuppressed _ _);
      [apply Qle_refl | now apply sizeAt_nonneg].
  - intros Hb. now apply finalBid_nonneg.
  - intros Hp. rewrite (sizeAt_nonpos this _ Hp).
    destruct (bidSuppressed _ _); apply roundSize_zero.
Qed.

Lemma quote_nonnegativity_witness :
  0 <= Quote.askPrice
         (Quoter.generateQuotes exampleQuoter 100 0 (Some crossedBook)) /\
  0 <= Quote.bidSize
         (Quoter.generateQuotes exampleQuoter 100 0 (Some crossedBook)) /\
  0 <= Quote.askSize
         (Quoter.generateQuotes exampleQuoter 100 0 (Some crossedBook)) /\
  0 <= Quote.bidPrice
         (Quoter.generateQuotes exampleQuoter 100 0 (Some crossedBook)).
Proof.
  destruct (quote_nonnegativity exampleQuoter 100 0 (Some crossedBook))
    as [Ha [Hbs [Has [Hb _]]]].
  - reflexivity.
  - vm_compute. discriminate.
  - split; [exact Ha | split; [exact Hbs | split; [exact Has|]]].
    apply Hb. vm_compute. discriminate.
Defined.

(** ** quoteToOrders *)

Lemma Qgtb_nonzero x : 0 <= x -> Qgtb x 0 = negb (Qeq_bool x 0).
Proof.
  intros H. destruct (Qeq_bool x 0) eqn:E; cbn [negb].
  - apply Qeq_bool_iff in E. apply Qgtb_false. lra.
  - apply Qeq_bool_neq in E. apply Qgtb_true. lra.
Qed.

(** C9.  For a quote (sizes nonnegative, as the data model has them) and
    any override flag, quoteToOrders emits one request per side whose size
    is nonzero, the bid before the ask, so none when both sizes are zero;
    every request has postOnly = true and reduceOnly = (override OR
    isCloseMode), hence reduceOnly = true in close mode whatever the
    override. *)
Theorem quoteToOrders_spec this quote reduceOnly :
  0 <= Quote.bidSize quote ->
  0 <= Quote.askSize quote ->
  let orders := Quoter.quoteToOrders this quote reduceOnly in
  orders =
    (if Qeq_bool (Quote.bidSize quote) 0 then []
     else [sideOrder this quote reduceOnly buy]) ++
    (if Qeq_bool (Quote.askSize quote) 0 then []
     else [sideOrder this quote reduceOnly sell]) /\
  (Quote.bidSize quote == 0 -> Quote.askSize quote == 0 -> orders = []) /\
  Forall (fun o => OrderRequest.postOnly o = true /\
                   OrderRequest.reduceOnly o
                   = (reduceOnly || Quote.isCloseMode quote)%bool) orders /\
  (Quote.isCloseMode quote = true ->
   Forall (fun o => OrderRequest.reduceOnly o = true) orders).
Proof.
  intros Hb Ha orders. subst orders. unfold Quoter.quoteToOrders.
  rewrite (Qgtb_nonzero _ Hb), (Qgtb_nonzero _ Ha). fold (sideOrder this quote reduceOnly buy).
  fold (sideOrder this quote reduceOnly sell).
  split; [|split; [|split]].
  - destruct (Qeq_bool (Quote.bidSize quote) 0),
             (Qeq_bool (Quote.askSize quote) 0); reflexivity.
  - intros Zb Za. apply Qeq_bool_iff in Zb, Za. rewrite Zb, Za. reflexivity.
  - destruct (Qeq_bool (Quote.bidSize quote) 0),
             (Qeq_bool (Quote.askSize quote) 0); cbn;
      repeat constructor.
  - intros Hc.
    destruct (Qeq_bool (Quote.bidSize quote) 0),
             (Qeq_bool (Quote.askSize quote) 0); cbn;
      repeat constructor; cbn; rewrite Hc; apply orb_true_r.
Qed.

Lemma quoteToOrders_spec_witness :
  Quoter.quoteToOrders exampleQuoter
    (Quoter.generateQuotes exampleQuoter 100 600 None) false
  = [OrderRequest.mk "BTC/USD:USD" sell limit 101 (100 # 100) true true].
Proof.
  destruct (quoteToOrders_spec exampleQuoter
              (Quoter.generateQuotes exampleQuoter 100 600 None) false)
    as [H _].
  - vm_compute. discriminate.
  - vm_compute. discriminate.
  - rewrite H. reflexivity.
Defined.

(** ** Bulk cancellation *)

Lemma forEach_tally openOrders statuses : forall index t,
  Orders.forEach openOrders statuses index t
  = {| Orders.successCount := Orders.successCount t + successes statuses;
       Orders.failCount := Orders.failCount t + failures statuses;
       Orders.warnings :=
         Orders.warnings t ++ failureReports openOrders statuses index |}.
Proof.
  induction statuses as [|st rest IH]; intros index t.
  - cbn. rewrite !Nat.add_0_r, app_nil_r. now destruct t.
  - cbn [Orders.forEach]. rewrite IH. unfold successes, failures, Orders.classify.
    destruct st as [|message]; cbn [filter failureReports countsAsSuccess];
      [|destruct (Orders.isAlreadyGone message)];
      cbn [negb List.length app Orders.successCount Orders.failCount Orders.warnings];
      rewrite <- ?plus_n_Sm, <- ?app_assoc; reflexivity.
Qed.

Lemma successes_failures statuses :
  (successes statuses + failures statuses)%nat = List.length statuses.
Proof.
  unfold successes, failures. induction statuses as [|st rest IH]; [reflexivity|].
  cbn. destruct (countsAsSuccess st); cbn; lia.
Qed.

Lemma successes_repeat n : successes (repeat Orders.success n) = n.
Proof. unfold successes. induction n; cbn; congruence. Qed.

Lemma failures_repeat n : failures (repeat Orders.success n) = 0%nat.
Proof. unfold failures. induction n; cbn; congruence. Qed.

Lemma successes_app s1 s2 : successes (s1 ++ s2) = (successes s1 + successes s2)%nat.
Proof. unfold successes. now rewrite filter_app, length_app. Qed.

Lemma failures_app s1 s2 : failures (s1 ++ s2) = (failures s1 + failures s2)%nat.
Proof. unfold failures. now rewrite filter_app, length_app. Qed.

(** [toCancel] writes no log line; a map over it either returns one request
    per order or throws for the first order whose market is not found. *)
Lemma mapM_toCancel markets openOrders :
  (exists cancels,
     Orders.mapM (Orders.toCancel markets) openOrders = ([], inr cancels) /\
     List.length cancels = List.length openOrders) \/
  (exists order,
     In order openOrders /\
     find (fun m => String.eqb (Market.base m)
                      (Orders.splitHead "/" (Orders.Order.symbol order)))
       markets = None /\
     Orders.mapM (Orders.toCancel markets) openOrders
     = ([], inl (Orders.MarketNotFound (Orders.Order.symbol order)))).
Proof.
  induction openOrders as [|order rest IH].
  - left. exists []. split; reflexivity.
  - cbn [Orders.mapM].
    destruct (find (fun m => String.eqb (Market.base m)
                      (Orders.splitHead "/" (Orders.Order.symbol order)))
                markets) as [market|] eqn:Hf.
    + assert (Ht : Orders.toCancel markets order
                   = ([], inr {| Orders.a := Orders.parseInt (Market.id market);
                                 Orders.o := Orders.parseInt (Orders.Order.id order) |}))
        by (unfold Orders.toCancel; rewrite Hf; reflexivity).
      rewrite Ht.
      destruct IH as [[cancels [Hc Hl]] | [bad [Hin [Hnf Hc]]]].
      * left. eexists. rewrite Hc. cbn. split; [reflexivity|]. cbn. now rewrite Hl.
      * right. exists bad. rewrite Hc. cbn.
        split; [now right | split; [assumption | reflexivity]].
    + assert (Ht : Orders.toCancel markets order
                   = ([], inl (Orders.MarketNotFound (Orders.Order.symbol order))))
        by (unfold Orders.toCancel; rewrite Hf; reflexivity).
      rewrite Ht.
      right. exists order. cbn.
      split; [now left | split; [assumption | reflexivity]].
Qed.

Lemma cancelAllOrders_stages clients symbol :
  Orders.cancelAllOrders clients symbol = cancelAllStages clients symbol.
Proof.
  unfold Orders.cancelAllOrders, cancelAllStages.
  destruct (Orders.getOpenOrders clients symbol) as [l0 [e|openOrders]];
    [reflexivity|].
  destruct openOrders as [|order rest]; [reflexivity|].
  cbn [Orders.bind Orders.tryCatch List.length Nat.eqb Orders.log Orders.await].
  destruct (Orders.getMarkets clients) as [e|markets].
  { cbn. now rewrite <- !app_assoc. }
  destruct (Orders.mapM (Orders.toCancel markets) (order :: rest))
    as [l1 [e|cancels]].
  { cbn. now rewrite <- !app_assoc. }
  cbn [Orders.bind Orders.tryCatch Orders.await Orders.ret
         Orders.log Orders.throw].
  destruct (Orders.exchange_cancel clients cancels) as [e|statuses];
    [destruct (Orders.wrappedStatuses e) as [statuses|]|];
    cbn [Orders.bind Orders.tryCatch Orders.await Orders.ret
           Orders.log Orders.throw];
    rewrite ?forEach_tally;
    cbn [Orders.successCount Orders.failCount Orders.warnings Nat.add];
    repeat (progress (cbn [app]; rewrite <- ?app_assoc, ?app_nil_r));
    reflexivity.
Qed.

(** C7, as stated, fails on its last clause: the open orders are fetched and
    every market id resolves, yet cancel-all raises, because the batch
    request throws an error that carries no statuses. *)
Lemma gateway_failure_raises :
  exists l0 openOrders markets cancels,
    Orders.getOpenOrders (exampleClients (inl timedOut)) None
    = (l0, inr openOrders) /\
    Orders.getMarkets (exampleClients (inl timedOut)) = inr markets /\
    Orders.mapM (Orders.toCancel markets) openOrders = ([], inr cancels) /\
    snd (Orders.cancelAllOrders (exampleClients (inl timedOut)) None)
    = inl timedOut.
Proof. do 4 eexists. repeat split; reflexivity. Qed.

(** C7, amended.  With no open order cancel-all completes at once.  Once
    the open orders are fetched and their market ids resolved, for every
    status list the batch answers (on either path) cancel-all completes
    without raising and reports (successCount, failCount), where the success
    sentinel and an error saying the order was already canceled or filled
    count as successes and any other error as a failure, each failure being
    warned about and every entry being counted; one "already canceled" error
    among N successes gives (N+1, 0); and cancel-all raises only when
    fetching the open orders fails, resolving a market id fails, or the
    batch request throws an error that carries no status list. *)
Theorem cancel_all_classification clients symbol :
  (forall l0,
     Orders.getOpenOrders clients symbol = (l0, inr []) ->
     Orders.cancelAllOrders clients symbol
     = (l0 ++ [Orders.info_noOpenOrders], inr tt)) /\
  (forall l0 openOrders markets cancels statuses,
     Orders.getOpenOrders clients symbol = (l0, inr openOrders) ->
     openOrders <> [] ->
     Orders.getMarkets clients = inr markets ->
     Orders.mapM (Orders.toCancel markets) openOrders = ([], inr cancels) ->
     statusesOf (Orders.exchange_cancel clients cancels) = Some statuses ->
     Orders.cancelAllOrders clients symbol
     = (l0 ++ Orders.debug_canceling (List.length openOrders)
           :: failureReports openOrders statuses 0 ++
              [Orders.info_canceled (successes statuses) (failures statuses)],
        inr tt) /\
     (successes statuses + failures statuses)%nat = List.length statuses) /\
  (forall i j message,
     Orders.isAlreadyGone message = true ->
     let statuses :=
       repeat Orders.success i ++ Orders.error message :: repeat Orders.success j in
     successes statuses = (i + j + 1)%nat /\ failures statuses = 0%nat) /\
  (forall l e,
     Orders.cancelAllOrders clients symbol = (l, inl e) ->
     (exists l0, Orders.getOpenOrders clients symbol = (l0, inl e)) \/
     Orders.getMarkets clients = inl e \/
     (exists l0 openOrders markets order,
        Orders.getOpenOrders clients symbol = (l0, inr openOrders) /\
        Orders.getMarkets clients = inr markets /\
        In order openOrders /\
        find (fun m => String.eqb (Market.base m)
                         (Orders.splitHead "/" (Orders.Order.symbol order)))
          markets = None /\
        e = Orders.MarketNotFound (Orders.Order.symbol order)) \/
     (exists cancels,
        Orders.exchange_cancel clients cancels = inl e /\
        Orders.wrappedStatuses e = None)).
Proof.
  split; [|split; [|split]].
  - intros l0 Ho. rewrite cancelAllOrders_stages. unfold cancelAllStages.
    now rewrite Ho.
  - intros l0 openOrders markets cancels statuses Ho Hne Hm Hc Hs.
    split; [|apply successes_failures].
    rewrite cancelAllOrders_stages. unfold cancelAllStages.
    rewrite Ho, Hm, Hc.
    destruct openOrders as [|order rest]; [congruence|].
    destruct (Orders.exchange_cancel clients cancels) as [e|answered];
      cbn [statusesOf] in Hs; [rewrite Hs | injection Hs as ->];
      cbn [app]; now rewrite <- app_assoc.
  - intros i j message Hg statuses. subst statuses.
    rewrite successes_app, failures_app.
    change (Orders.error message :: repeat Orders.success j)
      with ([Orders.error message] ++ repeat Orders.success j).
    rewrite successes_app, failures_app, !successes_repeat, !failures_repeat.
    unfold successes, failures. cbn [filter countsAsSuccess]. rewrite Hg.
    cbn. split; lia.
  - intros l e. rewrite cancelAllOrders_stages. unfold cancelAllStages.
    destruct (Orders.getOpenOrders clients symbol) as [l0 [e0|openOrders]].
    { intros H. injection H as _ <-. left. now exists l0. }
    destruct openOrders as [|order rest]; [discriminate|].
    destruct (Orders.getMarkets clients) as [e0|markets].
    { intros H. injection H as _ <-. right. now left. }
    destruct (mapM_toCancel markets (order :: rest))
      as [[cancels [Hc _]] | [bad [Hin [Hnf Hc]]]]; rewrite Hc.
    + destruct (Orders.exchange_cancel clients cancels) as [e0|statuses] eqn:Hx;
        [|discriminate].
      destruct (Orders.wrappedStatuses e0) eqn:Hw; [discriminate|].
      intros H. injection H as _ <-. right. right. right. now exists cancels.
    + intros H. injection H as _ <-. right. right. left.
      exists l0, (order :: rest), markets, bad. repeat split; assumption.
Qed.

Lemma cancel_all_classification_witness :
  Orders.cancelAllOrders (exampleClients (inr [Orders.success; alreadyGone])) None
  = ([Orders.debug_fetching; Orders.debug_fetched 2; Orders.debug_canceling 2;
      Orders.info_canceled 2 0], inr tt).
Proof.
  destruct (cancel_all_classification
              (exampleClients (inr [Orders.success; alreadyGone])) None)
    as [_ [H _]].
  refine (proj1 (H [Orders.debug_fetching; Orders.debug_fetched 2]
              [Orders.Order.mk "12" "BTC/USD:USD"; Orders.Order.mk "7" "ETH/USD:USD"]
              [exampleMarket; ethMarket]
              [ {| Orders.a := Some 0%Z; Orders.o := Some 12%Z |};
                {| Orders.a := Some 1%Z; Orders.o := Some 7%Z |} ]
              [Orders.success; alreadyGone] _ _ _ _ _));
    reflexivity || discriminate.
Defined.

(** ** Either path of the batch answer *)

Lemma getOpenOrders_ext clients1 clients2 symbol :
  Orders.info_openOrders clients1 = Orders.info_openOrders clients2 ->
  Orders.getMarkets clients1 = Orders.getMarkets clients2 ->
  Orders.getOpenOrders clients1 symbol = Orders.getOpenOrders clients2 symbol.
Proof. intros H1 H2. unfold Orders.getOpenOrders. now rewrite H1, H2. Qed.

(** C8.  Two runs that differ only in how the batch answer arrives, one
    returning the status array in a normal response and the other throwing
    an error that wraps a response with the same array, log the same lines,
    compute the same (successCount, failCount) and end alike; and when the
    thrown error carries no status array, cancel-all ends by throwing that
    very error. *)
Theorem cancel_all_either_path symbol :
  (forall clients1 clients2,
     Orders.info_openOrders clients1 = Orders.info_openOrders clients2 ->
     Orders.getMarkets clients1 = Orders.getMarkets clients2 ->
     (forall cancels, exists statuses e,
        Orders.exchange_cancel clients1 cancels = inr statuses /\
        Orders.exchange_cancel clients2 cancels = inl e /\
        Orders.wrappedStatuses e = Some statuses) ->
     Orders.cancelAllOrders clients1 symbol
     = Orders.cancelAllOrders clients2 symbol) /\
  (forall clients l0 openOrders markets cancels e,
     Orders.getOpenOrders clients symbol = (l0, inr openOrders) ->
     openOrders <> [] ->
     Orders.getMarkets clients = inr markets ->
     Orders.mapM (Orders.toCancel markets) openOrders = ([], inr cancels) ->
     Orders.exchange_cancel clients cancels = inl e ->
     Orders.wrappedStatuses e = None ->
     snd (Orders.cancelAllOrders clients symbol) = inl e).
Proof.
  split.
  - intros clients1 clients2 Hi Hm Hx.
    rewrite !cancelAllOrders_stages. unfold cancelAllStages.
    rewrite (getOpenOrders_ext clients1 clients2 symbol Hi Hm), Hm.
    destruct (Orders.getOpenOrders clients2 symbol) as [l0 [e|openOrders]];
      [reflexivity|].
    destruct openOrders as [|order rest]; [reflexivity|].
    destruct (Orders.getMarkets clients2) as [e|markets]; [reflexivity|].
    destruct (Orders.mapM (Orders.toCancel markets) (order :: rest))
      as [l1 [e|cancels]]; [reflexivity|].
    destruct (Hx cancels) as [statuses [e [H1 [H2 Hw]]]].
    rewrite H1, H2, Hw. reflexivity.
  - intros clients l0 openOrders markets cancels e Ho Hne Hm Hc Hx Hw.
    rewrite cancelAllOrders_stages. unfold cancelAllStages.
    rewrite Ho, Hm, Hc, Hx, Hw.
    destruct openOrders as [|order rest]; [congruence | reflexivity].
Qed.

Lemma cancel_all_either_path_witness :
  Orders.cancelAllOrders (exampleClients (inr mixedStatuses)) None
  = Orders.cancelAllOrders
      (exampleClients
         (inl (Orders.External "ApiRequestError" (Some mixedStatuses))))
      None.
Proof.
  apply (proj1 (cancel_all_either_path None)); try reflexivity.
  intros cancels.
  exists mixedStatuses, (Orders.External "ApiRequestError" (Some mixedStatuses)).
  repeat split.
Defined.

(** * Further properties of the quoter *)

Lemma roundSize_nonpos this size : size <= 0 -> Quoter.roundSize this size <= 0.
Proof.
  intros H. unfold Quoter.roundSize.
  destruct (Quoter.market this) as [m|]; [|exact H]. cbv zeta.
  pose proof (ten_power_pos (Market.sizePrecision m)) as Hp.
  apply Qle_shift_div_r; [exact Hp|]. rewrite Qmult_0_l.
  change 0 with (inject_Z 0). rewrite <- Zle_Qle.
  change 0%Z with (Qceiling 0). apply Qceiling_resp_le.
  assert (0 <= - size * 10 ^ Market.sizePrecision m)
    by (apply Qmult_le_0_compat; lra).
  lra.
Qed.

(** ** The orders a quote turns into *)

Lemma In_quoteToOrders this quote reduceOnly o :
  In o (Quoter.quoteToOrders this quote reduceOnly) ->
  (o = sideOrder this quote reduceOnly buy /\ 0 < Quote.bidSize quote) \/
  (o = sideOrder this quote reduceOnly sell /\ 0 < Quote.askSize quote).
Proof.
  unfold Quoter.quoteToOrders.
  fold (sideOrder this quote reduceOnly buy).
  fold (sideOrder this quote reduceOnly sell).
  destruct (Qgtb (Quote.bidSize quote) 0) eqn:Eb;
    destruct (Qgtb (Quote.askSize quote) 0) eqn:Ea;
    rewrite ?Qgtb_true in *; cbn [app In]; intuition auto.
Qed.

(** X6.  In close mode the quoter emits at most one order, it is on the side
    that reduces the position (sell for a long position, buy otherwise) and
    it is reduce-only whatever the override. *)
Theorem close_mode_emits_reducing_order
    this fairPrice positionNotional orderbook reduceOnly :
  let q := Quoter.generateQuotes this fairPrice positionNotional orderbook in
  let orders := Quoter.quoteToOrders this q reduceOnly in
  Quote.isCloseMode q = true ->
  (List.length orders <= 1)%nat /\
  forall o, In o orders ->
    OrderRequest.reduceOnly o = true /\
    OrderRequest.side o = (if Qgtb positionNotional 0 then sell else buy).
Proof.
  intros q orders Hc. subst orders q.
  rewrite generateQuotes_fields in Hc. cbn [Quote.isCloseMode] in Hc.
  assert (Hzero : if Qgtb positionNotional 0
                  then finalBidSize this fairPrice positionNotional orderbook <= 0
                  else finalAskSize this fairPrice positionNotional orderbook <= 0).
  { unfold finalBidSize, finalAskSize, bidSuppressed, askSuppressed.
    rewrite Hc. cbn [andb].
    destruct (Qgtb positionNotional 0); cbn [negb];
      apply roundSize_nonpos, Qle_refl. }
  split.
  - unfold Quoter.quoteToOrders. rewrite generateQuotes_fields.
    cbn [Quote.bidSize Quote.askSize].
    destruct (Qgtb positionNotional 0).
    + apply Qgtb_false in Hzero. rewrite Hzero.
      destruct (Qgtb (finalAskSize this fairPrice positionNotional orderbook) 0);
        cbn [List.length app]; lia.
    + apply Qgtb_false in Hzero. rewrite Hzero.
      destruct (Qgtb (finalBidSize this fairPrice positionNotional orderbook) 0);
        cbn [List.length app]; lia.
  - intros o Hin. apply In_quoteToOrders in Hin.
    rewrite generateQuotes_fields in Hin.
    cbn [Quote.bidSize Quote.askSize] in Hin.
    destruct Hin as [[-> Hs] | [-> Hs]];
      cbn [sideOrder OrderRequest.reduceOnly OrderRequest.side Quote.isCloseMode];
      rewrite Hc, orb_true_r;
      (split; [reflexivity|]);
      destruct (Qgtb positionNotional 0); try reflexivity; lra.
Qed.

Lemma close_mode_emits_reducing_order_witness :
  Forall (fun o => OrderRequest.side o = buy /\ OrderRequest.reduceOnly o = true)
    (Quoter.quoteToOrders exampleQuoter
       (Quoter.generateQuotes exampleQuoter 100 (-600) None) false).
Proof.
  apply Forall_forall. intros o Hin.
  destruct (close_mode_emits_reducing_order exampleQuoter 100 (-600) None false
              eq_refl) as [_ H].
  destruct (H o Hin) as [Hr Hs]. split; assumption.
Defined.

(** * The quoter in double precision *)

(** ** Rounding to the nearest double *)

(** ** Powers of two *)

Lemma pow2_pos (e : Z) : 0 < 2 ^ e.
Proof. apply Qpower_0_lt. reflexivity. Qed.

Lemma pow2_le (a b : Z) : (a <= b)%Z -> 2 ^ a <= 2 ^ b.
Proof. intros H. apply Qpower_le_compat_l; [exact H | discriminate]. Qed.


Lemma pow2_lt_inv (a b : Z) : 2 ^ a < 2 ^ b -> (a < b)%Z.
Proof. intros H. apply (Qpower_lt_compat_l_inv 2); [exact H | reflexivity]. Qed.

Lemma pow2_plus (a b : Z) : 2 ^ (a + b) == 2 ^ a * 2 ^ b.
Proof. apply Qpower_plus. discriminate. Qed.

Lemma pow2_Z (n : Z) : (0 <= n)%Z -> inject_Z (2 ^ n) == 2 ^ n.
Proof. intros H. apply (Zpower_Qpower 2 n H). Qed.

Lemma pow2_cancel (x : Q) (e : Z) : x / 2 ^ e * 2 ^ e == x.
Proof. pose proof (pow2_pos e). field. lra. Qed.

(** ** The binade of a positive number *)

Lemma ilog2_spec (x : Q) :
  0 < x -> 2 ^ Double.ilog2 x <= x /\ x < 2 ^ (Double.ilog2 x + 1).
Proof.
  intros Hx. destruct x as [p q].
  assert (Hp : (0 < p)%Z) by (unfold Qlt in Hx; cbn in Hx; lia).
  unfold Double.ilog2. cbn [Qnum Qden].
  destruct (Z.log2_spec p Hp) as [Ha1 Ha2].
  destruct (Z.log2_spec (Z.pos q) eq_refl) as [Hb1 Hb2].
  pose proof (Z.log2_nonneg p) as Ha0.
  pose proof (Z.log2_nonneg (Z.pos q)) as Hb0.
  set (a := Z.log2 p) in *. set (b := Z.log2 (Z.pos q)) in *.
  assert (Qa1 : 2 ^ a <= inject_Z p)
    by (rewrite <- pow2_Z by exact Ha0; rewrite <- Zle_Qle; exact Ha1).
  assert (Qa2 : inject_Z p < 2 ^ (a + 1))
    by (rewrite <- pow2_Z by lia; rewrite <- Zlt_Qlt; exact Ha2).
  assert (Qb1 : 2 ^ b <= inject_Z (Z.pos q))
    by (rewrite <- pow2_Z by exact Hb0; rewrite <- Zle_Qle; exact Hb1).
  assert (Qb2 : inject_Z (Z.pos q) < 2 ^ (b + 1))
    by (rewrite <- pow2_Z by lia; rewrite <- Zlt_Qlt; exact Hb2).
  assert (Ex : (p # q) * inject_Z (Z.pos q) == inject_Z p).
  { rewrite (Qmake_Qdiv p q). field. discriminate. }
  pose proof (pow2_pos b) as Tb. pose proof (pow2_pos (b + 1)) as Tb1.
  destruct (Qle_bool (2 ^ (a - b)) (p # q)) eqn:E.
  - split; [apply Qle_bool_iff, E|].
    apply (Qmult_lt_r _ _ (2 ^ b) Tb).
    rewrite <- pow2_plus. replace (a - b + 1 + b)%Z with (a + 1)%Z by lia.
    apply Qle_lt_trans with (y := (p # q) * inject_Z (Z.pos q)).
    + apply Qmult_le_l; [exact Hx | exact Qb1].
    + rewrite Ex. exact Qa2.
  - assert (E' : p # q < 2 ^ (a - b)).
    { apply Qnot_le_lt. intros H. apply Qle_bool_iff in H. congruence. }
    split.
    + apply (Qmult_le_r _ _ (2 ^ (b + 1)) Tb1).
      rewrite <- pow2_plus. replace (a - b - 1 + (b + 1))%Z with a by lia.
      apply Qle_trans with (y := (p # q) * inject_Z (Z.pos q)).
      * rewrite Ex. exact Qa1.
      * apply Qmult_le_l; [exact Hx | apply Qlt_le_weak, Qb2].
    + replace (a - b - 1 + 1)%Z with (a - b)%Z by lia. exact E'.
Qed.

Lemma ilog2_unique (x : Q) (k : Z) :
  2 ^ k <= x -> x < 2 ^ (k + 1) -> Double.ilog2 x = k.
Proof.
  intros H1 H2.
  assert (Hx : 0 < x) by (pose proof (pow2_pos k); lra).
  destruct (ilog2_spec x Hx) as [L1 L2].
  assert (A : (k < Double.ilog2 x + 1)%Z)
    by (apply pow2_lt_inv; lra).
  assert (B : (Double.ilog2 x < k + 1)%Z)
    by (apply pow2_lt_inv; lra).
  lia.
Qed.

Lemma ilog2_comp (x y : Q) : 0 < x -> x == y -> Double.ilog2 x = Double.ilog2 y.
Proof.
  intros Hx E. symmetry.
  destruct (ilog2_spec x Hx). apply ilog2_unique; rewrite <- E; assumption.
Qed.

Lemma ilog2_le (x y : Q) :
  0 < x -> x <= y -> (Double.ilog2 x <= Double.ilog2 y)%Z.
Proof.
  intros Hx Hxy.
  destruct (ilog2_spec x Hx) as [X1 _].
  destruct (ilog2_spec y) as [_ Y2]; [lra|].
  assert (A : (Double.ilog2 x < Double.ilog2 y + 1)%Z)
    by (apply pow2_lt_inv; lra).
  lia.
Qed.

(** ** The nearest integer, ties to even *)

Lemma nearestEven_cases (x : Q) :
  Double.nearestEven x = Qfloor x \/ Double.nearestEven x = (Qfloor x + 1)%Z.
Proof.
  unfold Double.nearestEven.
  destruct (Qcompare _ _); [destruct (Z.even _)|..]; auto.
Qed.

Lemma nearestEven_Z (n : Z) : Double.nearestEven (inject_Z n) = n.
Proof.
  unfold Double.nearestEven. rewrite Qfloor_Z.
  assert (E : Qcompare (inject_Z n - inject_Z n) (1 # 2) = Lt).
  { apply (proj1 (Qlt_alt _ _)). lra. }
  now rewrite E.
Qed.

Lemma nearestEven_comp (x y : Q) :
  x == y -> Double.nearestEven x = Double.nearestEven y.
Proof.
  intros E. unfold Double.nearestEven.
  rewrite (Qfloor_comp _ _ E).
  assert (C : Qcompare (x - inject_Z (Qfloor y)) (1 # 2)
              = Qcompare (y - inject_Z (Qfloor y)) (1 # 2)).
  { apply Qcompare_comp; [rewrite E|]; reflexivity. }
  now rewrite C.
Qed.

Lemma nearestEven_le (x y : Q) :
  x <= y -> (Double.nearestEven x <= Double.nearestEven y)%Z.
Proof.
  intros Hxy.
  pose proof (Qfloor_resp_le _ _ Hxy) as Hf.
  destruct (Z.eq_dec (Qfloor x) (Qfloor y)) as [Ef | Nf].
  - unfold Double.nearestEven. rewrite Ef.
    destruct (Qcompare_spec (x - inject_Z (Qfloor y)) (1 # 2)) as [Cx | Cx | Cx];
      destruct (Qcompare_spec (y - inject_Z (Qfloor y)) (1 # 2)) as [Cy | Cy | Cy];
      try destruct (Z.even (Qfloor y)); first [lia | exfalso; lra].
  - destruct (nearestEven_cases x) as [-> | ->];
      destruct (nearestEven_cases y) as [-> | ->]; lia.
Qed.

Lemma nearestEven_ge (x : Q) (n : Z) :
  inject_Z n <= x -> (n <= Double.nearestEven x)%Z.
Proof.
  intros H. rewrite <- (nearestEven_Z n). now apply nearestEven_le.
Qed.

Lemma nearestEven_le_Z (x : Q) (n : Z) :
  x <= inject_Z n -> (Double.nearestEven x <= n)%Z.
Proof.
  intros H. rewrite <- (nearestEven_Z n). now apply nearestEven_le.
Qed.

(** ** Rounding a magnitude *)

Lemma ulpExponent_cases (x : Q) :
  (Double.ulpExponent x = Double.ilog2 x - 52 /\ -1074 <= Double.ilog2 x - 52)%Z \/
  (Double.ulpExponent x = -1074 /\ Double.ilog2 x - 52 <= -1074)%Z.
Proof. unfold Double.ulpExponent. lia. Qed.

Lemma scaled_lt (m : Q) : 0 < m -> m / 2 ^ Double.ulpExponent m < 2 ^ 53.
Proof.
  intros Hm. apply Qlt_shift_div_r; [apply pow2_pos|].
  destruct (ilog2_spec m Hm) as [_ H2].
  apply Qlt_le_trans with (y := 2 ^ (Double.ilog2 m + 1)); [exact H2|].
  rewrite <- pow2_plus. apply pow2_le.
  destruct (ulpExponent_cases m); lia.
Qed.

Lemma roundMagnitude_upper (m : Q) (k : Z) :
  m <= 2 ^ k -> (Double.ulpExponent m <= k)%Z -> Double.roundMagnitude m <= 2 ^ k.
Proof.
  intros Hm He. unfold Double.roundMagnitude.
  set (e := Double.ulpExponent m) in *.
  pose proof (pow2_pos e) as Te.
  replace k with (k - e + e)%Z by lia. rewrite pow2_plus.
  apply Qmult_le_r; [exact Te|].
  rewrite <- (pow2_Z (k - e)) by lia. rewrite <- Zle_Qle.
  apply nearestEven_le_Z. rewrite (pow2_Z (k - e)) by lia.
  apply Qle_shift_div_r; [exact Te|].
  rewrite <- pow2_plus. replace (k - e + e)%Z with k by lia. exact Hm.
Qed.

Lemma roundMagnitude_lower (m : Q) (k : Z) :
  2 ^ k <= m -> (Double.ulpExponent m <= k)%Z -> 2 ^ k <= Double.roundMagnitude m.
Proof.
  intros Hm He. unfold Double.roundMagnitude.
  set (e := Double.ulpExponent m) in *.
  pose proof (pow2_pos e) as Te.
  replace k with (k - e + e)%Z at 1 by lia. rewrite pow2_plus.
  apply Qmult_le_r; [exact Te|].
  rewrite <- (pow2_Z (k - e)) by lia. rewrite <- Zle_Qle.
  apply nearestEven_ge. rewrite (pow2_Z (k - e)) by lia.
  apply Qle_shift_div_l; [exact Te|].
  rewrite <- pow2_plus. replace (k - e + e)%Z with k by lia. exact Hm.
Qed.

Lemma roundMagnitude_0 (m : Q) : m == 0 -> Double.roundMagnitude m == 0.
Proof.
  intros E. unfold Double.roundMagnitude.
  assert (Z0 : m / 2 ^ Double.ulpExponent m == inject_Z 0).
  { generalize (Double.ulpExponent m). intros e. rewrite E.
    unfold Qdiv. apply Qmult_0_l. }
  rewrite (nearestEven_comp _ _ Z0), nearestEven_Z. apply Qmult_0_l.
Qed.

Lemma roundMagnitude_nonneg (m : Q) : 0 <= m -> 0 <= Double.roundMagnitude m.
Proof.
  intros Hm. unfold Double.roundMagnitude.
  pose proof (pow2_pos (Double.ulpExponent m)) as Te.
  apply Qmult_le_0_compat; [|lra].
  change 0 with (inject_Z 0). rewrite <- Zle_Qle.
  apply nearestEven_ge. change (inject_Z 0) with 0.
  apply Qle_shift_div_l; [exact Te|]. lra.
Qed.

Lemma roundMagnitude_comp (x y : Q) :
  0 <= x -> x == y -> Double.roundMagnitude x == Double.roundMagnitude y.
Proof.
  intros Hx E. destruct (Qeq_dec x 0) as [Z0 | N0].
  - rewrite (roundMagnitude_0 x Z0), (roundMagnitude_0 y); [reflexivity|].
    now rewrite <- E.
  - assert (Px : 0 < x) by (apply Qle_lteq in Hx; destruct Hx as [H | H];
                            [exact H | exfalso; apply N0; now symmetry]).
    unfold Double.roundMagnitude, Double.ulpExponent.
    rewrite <- (ilog2_comp x y Px E).
    generalize (Z.max (Double.ilog2 x - 52) (-1074)). intros e.
    assert (S : x / 2 ^ e == y / 2 ^ e) by now rewrite E.
    now rewrite (nearestEven_comp _ _ S).
Qed.

Lemma roundMagnitude_le (x y : Q) :
  0 < x -> x <= y -> Double.roundMagnitude x <= Double.roundMagnitude y.
Proof.
  intros Hx Hxy. assert (Hy : 0 < y) by lra.
  pose proof (ilog2_le x y Hx Hxy) as Hl.
  destruct (Z.eq_dec (Double.ulpExponent x) (Double.ulpExponent y)) as [Ee | Ne].
  - unfold Double.roundMagnitude. rewrite Ee.
    pose proof (pow2_pos (Double.ulpExponent y)) as Te.
    apply Qmult_le_r; [exact Te|]. rewrite <- Zle_Qle.
    apply nearestEven_le. apply Qmult_le_r with (z := 2 ^ Double.ulpExponent y);
      [exact Te|]. now rewrite !pow2_cancel.
  - assert (Hlt : (Double.ulpExponent x < Double.ulpExponent y)%Z)
      by (destruct (ulpExponent_cases x), (ulpExponent_cases y); lia).
    assert (Ey : Double.ulpExponent y = (Double.ilog2 y - 52)%Z)
      by (destruct (ulpExponent_cases x), (ulpExponent_cases y); lia).
    apply Qle_trans with (y := 2 ^ (Double.ulpExponent x + 53)).
    + apply roundMagnitude_upper; [|lia].
      rewrite Z.add_comm, pow2_plus.
      pose proof (scaled_lt x Hx) as S.
      apply Qle_trans
        with (y := x / 2 ^ Double.ulpExponent x * 2 ^ Double.ulpExponent x).
      * rewrite (pow2_cancel x (Double.ulpExponent x)). apply Qle_refl.
      * apply Qlt_le_weak, Qmult_lt_r; [apply pow2_pos | exact S].
    + apply Qle_trans with (y := 2 ^ Double.ilog2 y); [apply pow2_le; lia|].
      destruct (ilog2_spec y Hy) as [Y1 _].
      apply roundMagnitude_lower; [exact Y1 | lia].
Qed.

(** ** Rounding *)

Lemma round_of_nonneg (x : Q) : 0 <= x -> Double.round x = Double.roundMagnitude x.
Proof.
  intros H. unfold Double.round. apply Qle_bool_iff in H. now rewrite H.
Qed.

Lemma round_of_neg (x : Q) : x < 0 -> Double.round x = - Double.roundMagnitude (- x).
Proof.
  intros H. unfold Double.round.
  destruct (Qle_bool 0 x) eqn:E; [|reflexivity].
  apply Qle_bool_iff in E. lra.
Qed.

Lemma round_zero (x : Q) : x == 0 -> Double.round x == 0.
Proof.
  intros E. rewrite round_of_nonneg by lra. now apply roundMagnitude_0.
Qed.

Lemma round_nonneg (x : Q) : 0 <= x -> 0 <= Double.round x.
Proof.
  intros H. rewrite (round_of_nonneg x H). now apply roundMagnitude_nonneg.
Qed.

Lemma round_nonpos (x : Q) : x <= 0 -> Double.round x <= 0.
Proof.
  intros H. destruct (Qlt_le_dec x 0) as [N | P].
  - rewrite (round_of_neg x N).
    pose proof (roundMagnitude_nonneg (- x)). lra.
  - rewrite (round_zero x); lra.
Qed.

Lemma round_le (x y : Q) : x <= y -> Double.round x <= Double.round y.
Proof.
  intros Hxy. destruct (Qlt_le_dec x 0) as [Nx | Px].
  - destruct (Qlt_le_dec y 0) as [Ny | Py].
    + rewrite (round_of_neg x Nx), (round_of_neg y Ny).
      pose proof (roundMagnitude_le (- y) (- x)). lra.
    + pose proof (round_nonpos x). pose proof (round_nonneg y Py). lra.
  - rewrite (round_of_nonneg x Px), (round_of_nonneg y) by lra.
    destruct (Qeq_dec x 0) as [Z0 | N0].
    + rewrite (roundMagnitude_0 x Z0). apply roundMagnitude_nonneg. lra.
    + apply roundMagnitude_le; [|exact Hxy].
      apply Qle_lteq in Px. destruct Px as [H | H];
        [exact H | exfalso; apply N0; now symmetry].
Qed.


Lemma round_opp (x : Q) : Double.round (- x) == - Double.round x.
Proof.
  destruct (Qlt_le_dec x 0) as [N | P].
  - rewrite (round_of_neg x N), (round_of_nonneg (- x)) by lra. ring.
  - destruct (Qeq_dec x 0) as [Z0 | N0].
    + rewrite (round_zero x Z0), (round_zero (- x)); lra.
    + assert (Px : 0 < x).
      { apply Qle_lteq in P. destruct P as [H | H];
          [exact H | exfalso; apply N0; now symmetry]. }
      rewrite (round_of_nonneg x P), (round_of_neg (- x)) by lra.
      rewrite (roundMagnitude_comp (- - x) x); [reflexivity | lra | ring].
Qed.



(** ** The operations *)

Lemma round_one : Double.round 1 == 1.
Proof. reflexivity. Qed.

Lemma double_div_nonneg (x y : Q) : 0 <= x -> 0 < y -> 0 <= Double.div x y.
Proof.
  intros Hx Hy. apply round_nonneg. apply Qle_shift_div_l; lra.
Qed.

Lemma double_div_le (x y d : Q) :
  0 < d -> x <= y -> Double.div x d <= Double.div y d.
Proof.
  intros Hd Hxy. apply round_le. unfold Qdiv.
  apply Qmult_le_compat_r; [exact Hxy|]. apply Qlt_le_weak, Qinv_lt_0_compat, Hd.
Qed.

Lemma double_mul_le (x y c : Q) :
  0 <= c -> x <= y -> Double.mul x c <= Double.mul y c.
Proof. intros Hc Hxy. apply round_le. now apply Qmult_le_compat_r. Qed.

Lemma double_sub_le (x y z : Q) : x <= y -> Double.sub x z <= Double.sub y z.
Proof. intros Hxy. apply round_le. lra. Qed.

(** ** The fields of a quote *)

Lemma generateQuotes64_fields this fairPrice positionNotional orderbook :
  Quoter64.generateQuotes this fairPrice positionNotional orderbook
  = Quote.mk (doubleBid this fairPrice positionNotional orderbook)
      (doubleAsk this fairPrice positionNotional orderbook)
      (doubleBidSize this fairPrice positionNotional orderbook)
      (doubleAskSize this fairPrice positionNotional orderbook)
      fairPrice (appliedSpread this positionNotional)
      (closeMode this positionNotional).
Proof.
  unfold Quoter64.generateQuotes, doubleBidSize, doubleAskSize, bidSuppressed,
    askSuppressed, doubleBid, doubleAsk, doubleRoundedBid, doubleRoundedAsk,
    doubleRawBid, doubleRawAsk, clamp0, appliedSpread, closeMode, doubleSizeAt,
    Quoter64.roundSize, Quoter64.roundToTick.
  destruct (Quoter.market this) as [m|]; destruct orderbook as [ob|];
    cbv zeta;
    destruct (Qgtb (Qabs positionNotional)
                (MarketMakerConfig.closeThresholdUsd (Quoter.config this)));
    cbn [andb]; try destruct (Qgtb positionNotional 0); cbn [negb];
    reflexivity.
Qed.

Lemma roundSize64_zero this : Quoter64.roundSize this 0 == 0.
Proof.
  unfold Quoter64.roundSize. destruct (Quoter.market this) as [m|];
    [|reflexivity].
  cbv zeta. unfold Double.div, Double.mul, Double.ceil.
  assert (E : Double.round (0 * Double.pow10 (Market.sizePrecision m)) == 0)
    by (apply round_zero; ring).
  rewrite (Qceiling_comp _ _ E). change (Qceiling 0) with 0%Z.
  apply round_zero. unfold Qdiv. ring.
Qed.

(** ** Without market metadata *)

Section NoMetadata.
Variable this : Quoter.t.
Variables fairPrice positionNotional : Q.
Hypothesis fair_double : Double.representable fairPrice.
Hypothesis fair_pos : 0 < fairPrice.
Hypothesis config_valid : MarketMakerConfig.valid (Quoter.config this).

Let spread := appliedSpread this positionNotional.

Lemma spread_multiplier_nonneg : 0 <= Double.div spread 10000.
Proof.
  apply double_div_nonneg; [|reflexivity].
  destruct config_valid as [Hs [Ht _]].
  subst spread. unfold appliedSpread. destruct (closeMode _ _); lra.
Qed.

(** The unclamped bid is at most the fair price. *)
Lemma double_bid_le_fair :
  Double.mul fairPrice (Double.sub 1 (Double.div spread 10000)) <= fairPrice.
Proof.
  pose proof spread_multiplier_nonneg as Hd.
  assert (Hc : Double.sub 1 (Double.div spread 10000) <= 1).
  { apply Qle_trans with (y := Double.round 1);
      [apply round_le; lra | rewrite round_one; apply Qle_refl]. }
  pose proof fair_double as F. unfold Double.representable in F.
  unfold Double.mul.
  apply Qle_trans with (y := Double.round fairPrice); [apply round_le | lra].
  apply Qle_trans with (y := fairPrice * 1); [|lra].
  apply Qmult_le_l; assumption.
Qed.

(** The unclamped ask is at least the fair price. *)
Lemma double_ask_ge_fair :
  fairPrice <= Double.mul fairPrice (Double.add 1 (Double.div spread 10000)).
Proof.
  pose proof spread_multiplier_nonneg as Hd.
  assert (Hc : 1 <= Double.add 1 (Double.div spread 10000)).
  { apply Qle_trans with (y := Double.round 1);
      [rewrite round_one; apply Qle_refl | apply round_le; lra]. }
  pose proof fair_double as F. unfold Double.representable in F.
  unfold Double.mul.
  apply Qle_trans with (y := Double.round fairPrice); [lra | apply round_le].
  apply Qle_trans with (y := fairPrice * 1); [lra|].
  apply Qmult_le_l; assumption.
Qed.
End NoMetadata.

(** C10.  With no market metadata set, an orderbook changes nothing: the
    quote is the one computed without it.  In the code's arithmetic,
    bidPrice is fairPrice * (1 - spread / 10000) clamped at 0 and askPrice
    is fairPrice * (1 + spread / 10000), the spread being the configured
    spreadBps, or takeProfitBps in close mode; each size is orderSizeUsd
    divided by that price, unrounded, or 0 on the side close mode
    suppresses or whose price is 0.  So a best ask at or below that bid
    is met or crossed. *)
Theorem quotes_without_market this fairPrice positionNotional orderbook :
  Quoter.market this = None ->
  Double.representable fairPrice ->
  0 < fairPrice ->
  MarketMakerConfig.valid (Quoter.config this) ->
  let cfg := Quoter.config this in
  let usd := MarketMakerConfig.orderSizeUsd cfg in
  let closing :=
    Qgtb (Qabs positionNotional) (MarketMakerConfig.closeThresholdUsd cfg) in
  let spread :=
    if closing then MarketMakerConfig.takeProfitBps cfg
    else MarketMakerConfig.spreadBps cfg in
  let bid := Double.mul fairPrice (Double.sub 1 (Double.div spread 10000)) in
  let ask := Double.mul fairPrice (Double.add 1 (Double.div spread 10000)) in
  let q := Quoter64.generateQuotes this fairPrice positionNotional orderbook in
  q = Quoter64.generateQuotes this fairPrice positionNotional None /\
  Quote.bidPrice q == Qmax 0 bid /\
  Quote.askPrice q == ask /\
  Quote.bidSize q
  == (if closing && Qgtb positionNotional 0 then 0
      else if Qgtb bid 0 then Double.div usd bid else 0) /\
  Quote.askSize q
  == (if closing && negb (Qgtb positionNotional 0) then 0
      else Double.div usd ask) /\
  (forall ob bestAsk sz rest,
     orderbook = Some ob ->
     Orderbook.asks ob = (bestAsk, sz) :: rest ->
     bestAsk <= bid ->
     bestAsk <= Quote.bidPrice q).
Proof.
  intros Hm Hd Hf Hv cfg usd closing spread bid ask q. subst q.
  rewrite !generateQuotes64_fields.
  cbn [Quote.bidPrice Quote.askPrice Quote.bidSize Quote.askSize].
  unfold doubleBidSize, doubleAskSize, doubleBid, doubleAsk, doubleRoundedBid,
    doubleRoundedAsk, Quoter64.roundSize, Quoter64.roundToTick.
  rewrite Hm.
  fold closing. change (appliedSpread this positionNotional) with spread.
  unfold doubleRawBid, doubleRawAsk, bidSuppressed, askSuppressed.
  change (appliedSpread this positionNotional) with spread.
  change (closeMode this positionNotional) with closing.
  fold bid ask.
  pose proof (double_ask_ge_fair this fairPrice positionNotional Hd Hf Hv) as Ha.
  change (appliedSpread this positionNotional) with spread in Ha. fold ask in Ha.
  assert (Ea : clamp0 ask = ask).
  { unfold clamp0. cmp_cases; [lra | reflexivity]. }
  rewrite Ea.
  assert (Eb : clamp0 bid == Qmax 0 bid).
  { unfold clamp0. cmp_cases.
    - rewrite Q.max_l; [reflexivity | assumption].
    - rewrite Q.max_r; [reflexivity | lra]. }
  split; [destruct orderbook; reflexivity|].
  split; [destruct orderbook; exact Eb|].
  split; [destruct orderbook; reflexivity|].
  split.
  { assert (Es : doubleSizeAt this (clamp0 bid)
                 == if Qgtb bid 0 then Double.div usd bid else 0).
    { unfold doubleSizeAt, clamp0. fold cfg usd.
      destruct (Qleb bid 0) eqn:E1; destruct (Qgtb bid 0) eqn:E2;
        rewrite ?Qleb_true, ?Qleb_false, ?Qgtb_true, ?Qgtb_false in *;
        first [reflexivity | exfalso; lra]. }
    destruct orderbook; destruct (closing && Qgtb positionNotional 0);
      first [reflexivity | exact Es]. }
  split.
  { assert (Es : doubleSizeAt this ask = Double.div usd ask).
    { unfold doubleSizeAt. fold cfg usd.
      rewrite (proj2 (Qgtb_true ask 0)) by lra. reflexivity. }
    destruct orderbook; destruct (closing && negb (Qgtb positionNotional 0));
      first [reflexivity | rewrite Es; reflexivity]. }
  intros ob bestAsk sz rest -> _ Hle. rewrite Eb.
  apply Qle_trans with (y := bid); [exact Hle | apply Q.le_max_r].
Qed.

Lemma quotes_without_market_witness :
  Quote.bidPrice (Quoter64.generateQuotes bareQuoter 100 0 (Some cheapAskBook))
  == Double.ofFloat 99.9 /\
  Quote.askPrice (Quoter64.generateQuotes bareQuoter 100 0 (Some cheapAskBook))
  == Double.ofFloat 100.1 /\
  50 <= Quote.bidPrice
          (Quoter64.generateQuotes bareQuoter 100 0 (Some cheapAskBook)).
Proof.
  destruct (quotes_without_market bareQuoter 100 0 (Some cheapAskBook))
    as [_ [Hb [Ha [_ [_ Hx]]]]].
  - reflexivity.
  - reflexivity.
  - reflexivity.
  - vm_compute. repeat split; discriminate.
  - split; [rewrite Hb; vm_compute; reflexivity|].
    split; [rewrite Ha; vm_compute; reflexivity|].
    apply (Hx cheapAskBook 50 1 []); [reflexivity | reflexivity|].
    vm_compute. discriminate.
Defined.

(** X2.  Without metadata a quote brackets the fair price in the code's
    arithmetic: 0 <= bidPrice <= fairPrice <= askPrice, for a fair price
    that is a positive double and a valid configuration.  (The
    inequalities are not strict: a spread below a rounding unit leaves the
    price at the fair price.) *)
Theorem quote_brackets_fair_price this fairPrice positionNotional orderbook :
  Quoter.market this = None ->
  Double.representable fairPrice ->
  0 < fairPrice ->
  MarketMakerConfig.valid (Quoter.config this) ->
  let q := Quoter64.generateQuotes this fairPrice positionNotional orderbook in
  0 <= Quote.bidPrice q /\
  Quote.bidPrice q <= fairPrice /\
  fairPrice <= Quote.askPrice q.
Proof.
  intros Hm Hd Hf Hv q. subst q. rewrite generateQuotes64_fields.
  cbn [Quote.bidPrice Quote.askPrice].
  unfold doubleBid, doubleAsk, doubleRoundedBid, doubleRoundedAsk,
    Quoter64.roundToTick. rewrite Hm.
  pose proof (double_bid_le_fair this fairPrice positionNotional Hd Hf Hv) as Hb.
  pose proof (double_ask_ge_fair this fairPrice positionNotional Hd Hf Hv) as Ha.
  unfold doubleRawBid, doubleRawAsk, clamp0.
  repeat split; destruct orderbook; repeat cmp_cases; lra.
Qed.

Lemma quote_brackets_fair_price_witness :
  Quote.bidPrice (Quoter64.generateQuotes bareQuoter 100 0 None) <= 100 /\
  100 <= Quote.askPrice (Quoter64.generateQuotes bareQuoter 100 0 None).
Proof.
  destruct (quote_brackets_fair_price bareQuoter 100 0 None)
    as [_ [Hb Ha]].
  - reflexivity.
  - reflexivity.
  - reflexivity.
  - vm_compute. repeat split; discriminate.
  - split; assumption.
Defined.

(** ** Sizes *)


(** Rounding to nearest lets the notional of a quoted side fall short too:
    with fair price 100 and a spread of 10 bps the bid is 99.9, its size
    100 / 99.9 is 1.0010010010010009, and their product, as the code
    computes it and as a number, is below the order size of 100. *)
Lemma notional_short_of_order_size :
  Quote.bidPrice (Quoter64.generateQuotes bareQuoter 100 0 None)
  == Double.ofFloat 99.9 /\
  Quote.bidSize (Quoter64.generateQuotes bareQuoter 100 0 None)
  == Double.ofFloat 1.0010010010010009 /\
  Double.mul (Quote.bidSize (Quoter64.generateQuotes bareQuoter 100 0 None))
    (Quote.bidPrice (Quoter64.generateQuotes bareQuoter 100 0 None))
  == Double.ofFloat 99.99999999999999 /\
  Quote.bidSize (Quoter64.generateQuotes bareQuoter 100 0 None)
  * Quote.bidPrice (Quoter64.generateQuotes bareQuoter 100 0 None) < 100.
Proof. vm_compute. repeat split. Qed.


Lemma doubleSizeAt_nonpos this price : price <= 0 -> doubleSizeAt this price = 0.
Proof.
  intros H. unfold doubleSizeAt. now rewrite (proj2 (Qgtb_false price 0) H).
Qed.





(** ** Rounding to the tick *)




(** Rounding to nearest moves prices that are on the grid as decimals: at
    a tick of 0.01 the price 0.07 rounds up to 0.08 (0.07 / 0.01 is
    7.000000000000001), so that rounding 0.0685 up twice gives 0.07 and
    then 0.08. *)
Lemma aligned_price_moves_a_tick :
  Quoter64.roundToTick centQuoter (Double.ofFloat 0.07) up
  == Double.ofFloat 0.08 /\
  Quoter64.roundToTick centQuoter (Double.ofFloat 0.0685) up
  == Double.ofFloat 0.07 /\
  Double.div (Double.ofFloat 0.07) (Double.ofFloat 0.01)
  == Double.ofFloat 7.000000000000001.
Proof. vm_compute. repeat split. Qed.





(** ** Staleness *)

Lemma deviation_nonneg_side fairPrice p p' :
  0 < fairPrice ->
  fairPrice <= p -> p <= p' ->
  Qabs (Double.sub p fairPrice) <= Qabs (Double.sub p' fairPrice).
Proof.
  intros Hf H1 H2.
  assert (A : 0 <= Double.sub p fairPrice) by (apply round_nonneg; lra).
  assert (B : Double.sub p fairPrice <= Double.sub p' fairPrice)
    by now apply double_sub_le.
  rewrite !Qabs_pos; lra.
Qed.

Lemma deviation_nonpos_side fairPrice p p' :
  0 < fairPrice ->
  p' <= p -> p <= fairPrice ->
  Qabs (Double.sub p fairPrice) <= Qabs (Double.sub p' fairPrice).
Proof.
  intros Hf H1 H2.
  assert (A : Double.sub p fairPrice <= 0) by (apply round_nonpos; lra).
  assert (B : Double.sub p' fairPrice <= Double.sub p fairPrice)
    by now apply double_sub_le.
  rewrite !Qabs_neg; lra.
Qed.

(** X1.  In the code's arithmetic staleness grows with the distance from a
    positive fair price: of two order prices on the same side of the fair
    price, the farther one is stale whenever the nearer one is, so the
    prices that are not stale form an interval around the fair price; the
    side argument is ignored; an order at the fair price is never stale
    for a limit that is not negative, also the default limit of 50. *)
Theorem staleness_grows_with_distance
    this side side' fairPrice maxDeviationBps :
  0 < fairPrice ->
  (forall p p',
     (fairPrice <= p /\ p <= p') \/ (p' <= p /\ p <= fairPrice) ->
     Quoter64.isOrderStale this p side fairPrice maxDeviationBps = true ->
     Quoter64.isOrderStale this p' side' fairPrice maxDeviationBps = true) /\
  (forall limit,
     0 <= limit ->
     Quoter64.isOrderStale this fairPrice side fairPrice (Some limit) = false) /\
  Quoter64.isOrderStale this fairPrice side fairPrice None = false.
Proof.
  intros Hf.
  assert (Hzero : Double.mul
                    (Double.div (Qabs (Double.sub fairPrice fairPrice)) fairPrice)
                    10000 == 0).
  { assert (E1 : Double.sub fairPrice fairPrice == 0)
      by (apply round_zero; ring).
    assert (E2 : Double.div (Qabs (Double.sub fairPrice fairPrice)) fairPrice
                 == 0).
    { apply round_zero. rewrite E1. reflexivity. }
    apply round_zero. rewrite E2. ring. }
  split; [|split].
  - intros p p' Hside. unfold Quoter64.isOrderStale.
    rewrite !Qgtb_true. intros Hs.
    apply Qlt_le_trans with (1 := Hs).
    apply double_mul_le; [discriminate|].
    apply double_div_le; [exact Hf|].
    destruct Hside as [[H1 H2] | [H1 H2]];
      [now apply deviation_nonneg_side | now apply deviation_nonpos_side].
  - intros limit Hl. unfold Quoter64.isOrderStale.
    apply Qgtb_false. rewrite Hzero. exact Hl.
  - unfold Quoter64.isOrderStale. apply Qgtb_false. rewrite Hzero.
    discriminate.
Qed.

Lemma staleness_grows_with_distance_witness :
  Quoter64.isOrderStale bareQuoter 101 buy 100 None = true /\
  Quoter64.isOrderStale bareQuoter 102 sell 100 None = true.
Proof.
  assert (H : Quoter64.isOrderStale bareQuoter 101 buy 100 None = true)
    by reflexivity.
  split; [exact H|].
  refine (proj1 (staleness_grows_with_distance bareQuoter buy sell 100 None _)
            101 102 _ H).
  - reflexivity.
  - left. split; discriminate.
Defined.

(** ** The model against the hardware *)

(** On the sample pairs every operation of [Double], applied to the values
    of two machine doubles, gives the value of the machine's result. *)
Lemma double_agrees_with_hardware :
  forallb (fun xy => agreesWithHardware (fst xy) (snd xy))
    (hardwareSamples ++ samplePairs 200 2024)
  = true.
Proof. vm_compute. reflexivity. Qed.

(** ** The orders of a quote *)

Lemma doubleBidSize_pos_inv this fairPrice positionNotional orderbook :
  0 < doubleBidSize this fairPrice positionNotional orderbook ->
  bidSuppressed this positionNotional = false /\
  0 < doubleBid this fairPrice positionNotional orderbook.
Proof.
  unfold doubleBidSize. intros H.
  destruct (bidSuppressed this positionNotional).
  { rewrite roundSize64_zero in H. lra. }
  split; [reflexivity|].
  apply Qnot_le_lt. intros Hle. rewrite (doubleSizeAt_nonpos this _ Hle) in H.
  rewrite roundSize64_zero in H. lra.
Qed.

Lemma doubleAskSize_pos_inv this fairPrice positionNotional orderbook :
  0 < doubleAskSize this fairPrice positionNotional orderbook ->
  askSuppressed this positionNotional = false /\
  0 < doubleAsk this fairPrice positionNotional orderbook.
Proof.
  unfold doubleAskSize. intros H.
  destruct (askSuppressed this positionNotional).
  { rewrite roundSize64_zero in H. lra. }
  split; [reflexivity|].
  apply Qnot_le_lt. intros Hle. rewrite (doubleSizeAt_nonpos this _ Hle) in H.
  rewrite roundSize64_zero in H. lra.
Qed.

(** X5.  Every order that quoteToOrders emits for a quote of generateQuotes
    has a positive price and a positive size, is a post-only limit order on
    the configured symbol, and at most two orders are emitted: a side whose
    price is not positive, or which close mode suppresses, is never sent. *)
Theorem emitted_orders_well_formed
    this fairPrice positionNotional orderbook reduceOnly :
  let orders :=
    Quoter.quoteToOrders this
      (Quoter64.generateQuotes this fairPrice positionNotional orderbook)
      reduceOnly in
  (List.length orders <= 2)%nat /\
  forall o, In o orders ->
    0 < OrderRequest.price o /\ 0 < OrderRequest.size o /\
    OrderRequest.postOnly o = true /\ OrderRequest.type o = limit /\
    OrderRequest.symbol o = MarketMakerConfig.symbol (Quoter.config this).
Proof.
  intros orders. subst orders. split.
  - unfold Quoter.quoteToOrders.
    destruct (Qgtb (Quote.bidSize _) 0); destruct (Qgtb (Quote.askSize _) 0);
      cbn [List.length app]; lia.
  - intros o Hin. apply In_quoteToOrders in Hin.
    rewrite generateQuotes64_fields in Hin.
    cbn [Quote.bidSize Quote.askSize] in Hin.
    destruct Hin as [[-> Hs] | [-> Hs]];
      cbn [sideOrder OrderRequest.price OrderRequest.size OrderRequest.postOnly
           OrderRequest.type OrderRequest.symbol Quote.bidPrice Quote.askPrice
           Quote.bidSize Quote.askSize].
    + destruct (doubleBidSize_pos_inv _ _ _ _ Hs) as [Hn Hp].
      repeat split; assumption.
    + destruct (doubleAskSize_pos_inv _ _ _ _ Hs) as [Hn Hp].
      repeat split; assumption.
Qed.

Lemma emitted_orders_well_formed_witness :
  Forall (fun o => 0 < OrderRequest.price o /\ 0 < OrderRequest.size o)
    (Quoter.quoteToOrders exampleQuoter
       (Quoter64.generateQuotes exampleQuoter 100 0 (Some crossedBook)) false).
Proof.
  apply Forall_forall. intros o Hin.
  destruct (emitted_orders_well_formed exampleQuoter 100 0 (Some crossedBook) false)
    as [_ H].
  destruct (H o Hin) as [Hp [Hs _]]. split; assumption.
Defined.

(** * Further properties of the order functions *)

(** ** Order ids survive the trip through their decimal text *)

Ltac eval_digit :=
  match goal with
  | |- context [Z.of_nat ?n] =>
      let v := eval vm_compute in (Z.of_nat n) in change (Z.of_nat n) with v
  end.

Lemma digits_acc d : forall p,
  Orders.digits (Some (Z.pos p)) (NilEmpty.string_of_uint d)
  = Some (Z.pos (Pos.of_uint_acc d p)).
Proof.
  induction d; intros p;
    cbn [NilEmpty.string_of_uint Orders.digits Pos.of_uint_acc];
    try reflexivity;
    (change (Orders.isDigit _) with true; cbv iota; rewrite <- IHd;
     f_equal; f_equal; try (eval_digit; lia)).
Qed.

Lemma digits_uint d :
  d <> Decimal.Nil ->
  Orders.digits None (NilEmpty.string_of_uint d) = Some (Z.of_N (Pos.of_uint d)).
Proof.
  induction d; intros Hd; try congruence;
    cbn [NilEmpty.string_of_uint Orders.digits Pos.of_uint];
    change (Orders.isDigit _) with true; cbv iota; eval_digit.
  2-10: apply digits_acc.
  destruct d; try (rewrite <- IHd by discriminate).
  all: cbn [NilEmpty.string_of_uint Orders.digits Pos.of_uint]; try reflexivity.
  all: change (Orders.isDigit _) with true; cbv iota; eval_digit; reflexivity.
Qed.

Lemma parseInt_toString z : Orders.parseInt (toString z) = Some z.
Proof.
  unfold toString. destruct z as [|p|p]; [reflexivity| |];
    cbn [Z.to_int NilZero.string_of_int]; unfold NilZero.string_of_uint;
    pose proof (Unsigned.to_uint_nonnil p) as Hn;
    pose proof (Unsigned.of_to p) as Hof;
    pose proof (digits_uint (Pos.to_uint p) Hn) as Hd; rewrite Hof in Hd;
    unfold Orders.parseInt.
  - destruct (Pos.to_uint p) eqn:E; try congruence;
      cbn [NilEmpty.string_of_uint Orders.skipWhiteSpace] in *;
      change (Orders.isWhiteSpace _) with false; cbv iota; exact Hd.
  - cbn [Orders.skipWhiteSpace].
    change (Orders.isWhiteSpace "-") with false. cbv iota.
    destruct (Pos.to_uint p); try congruence; rewrite Hd; reflexivity.
Qed.

(** ** getOpenOrders *)

Lemma getOpenOrders_answered clients symbol response markets :
  Orders.info_openOrders clients = inr response ->
  Orders.getMarkets clients = inr markets ->
  Orders.getOpenOrders clients symbol
  = ([Orders.debug_fetching;
      Orders.debug_fetched (List.length (selected symbol response))],
     inr (map (fun n =>
                 Orders.Order.mk (toString (Orders.oid n))
                   match marketOf markets (Orders.coin n) with
                   | Some market => Market.symbol market
                   | None => (Orders.coin n ++ "/USD:USD")%string
                   end)
              (selected symbol response))).
Proof.
  intros Hi Hm. unfold Orders.getOpenOrders. rewrite Hi, Hm.
  cbn [Orders.tryCatch Orders.bind Orders.log Orders.await Orders.ret app].
  fold (selected symbol response). rewrite length_map. reflexivity.
Qed.

Lemma getOpenOrders_failed clients symbol :
  (forall e, Orders.info_openOrders clients = inl e ->
     Orders.getOpenOrders clients symbol
     = ([Orders.debug_fetching; Orders.error_fetch e], inl e)) /\
  (forall e response,
     Orders.info_openOrders clients = inr response ->
     Orders.getMarkets clients = inl e ->
     Orders.getOpenOrders clients symbol
     = ([Orders.debug_fetching; Orders.error_fetch e], inl e)).
Proof.
  split; intros; unfold Orders.getOpenOrders;
    repeat match goal with H : _ = _ |- _ => rewrite H; clear H end;
    reflexivity.
Qed.

Lemma selected_incl symbol response n :
  In n (selected symbol response) -> In n response.
Proof.
  unfold selected. destruct symbol as [[|c s]|]; try tauto.
  intros H. apply filter_In in H. tauto.
Qed.

(** X9.  When both awaited calls answer, getOpenOrders returns (it never
    fails on a coin no market lists): there are at most as many orders as
    native records, without a symbol filter one per record in the same
    order, each order's id is the decimal text of a record's oid and parses
    back to it, and its symbol is the listing market's symbol or
    coin/USD:USD when no market lists the coin.  getOpenOrders throws only
    what one of the two awaited calls threw. *)
Theorem open_orders_query clients symbol :
  (forall response markets,
     Orders.info_openOrders clients = inr response ->
     Orders.getMarkets clients = inr markets ->
     exists l orders,
       Orders.getOpenOrders clients symbol = (l, inr orders) /\
       (List.length orders <= List.length response)%nat /\
       (symbol = None ->
        map Orders.Order.id orders
        = map (fun n => toString (Orders.oid n)) response) /\
       Forall (fun ord =>
                 exists n, In n response /\
                   Orders.Order.id ord = toString (Orders.oid n) /\
                   Orders.parseInt (Orders.Order.id ord) = Some (Orders.oid n) /\
                   Orders.Order.symbol ord
                   = match marketOf markets (Orders.coin n) with
                     | Some market => Market.symbol market
                     | None => (Orders.coin n ++ "/USD:USD")%string
                     end) orders) /\
  (forall l e,
     Orders.getOpenOrders clients symbol = (l, inl e) ->
     Orders.info_openOrders clients = inl e \/ Orders.getMarkets clients = inl e).
Proof.
  split.
  - intros response markets Hi Hm.
    rewrite (getOpenOrders_answered clients symbol response markets Hi Hm).
    do 2 eexists. split; [reflexivity|]. split; [|split].
    + rewrite length_map. unfold selected.
      destruct symbol as [[|c s]|]; try apply Nat.le_refl. apply filter_length_le.
    + intros ->. cbn [selected]. rewrite map_map. reflexivity.
    + apply Forall_forall. intros ord Hin. apply in_map_iff in Hin.
      destruct Hin as [n [<- Hn]]. exists n.
      cbn [Orders.Order.id Orders.Order.symbol].
      split; [exact (selected_incl _ _ _ Hn)|].
      split; [reflexivity|]. split; [apply parseInt_toString | reflexivity].
  - intros l e H.
    destruct (Orders.info_openOrders clients) as [e0|response] eqn:Hi.
    + rewrite (proj1 (getOpenOrders_failed clients symbol) e0 Hi) in H.
      left. congruence.
    + destruct (Orders.getMarkets clients) as [e0|markets] eqn:Hm.
      * rewrite (proj2 (getOpenOrders_failed clients symbol) e0 response Hi Hm) in H.
        right. congruence.
      * rewrite (getOpenOrders_answered clients symbol response markets Hi Hm) in H.
        discriminate.
Qed.

Lemma open_orders_query_witness :
  snd (Orders.getOpenOrders (exampleClients (inr [])) None)
  = inr [Orders.Order.mk "12" "BTC/USD:USD"; Orders.Order.mk "7" "ETH/USD:USD"].
Proof.
  destruct (open_orders_query (exampleClients (inr [])) None) as [H _].
  destruct (H _ _ eq_refl eq_refl) as [l [orders [Hrun _]]].
  rewrite Hrun. cbn [snd]. injection Hrun as _ <-. reflexivity.
Defined.

Lemma splitHead_idempotent sep s :
  Orders.splitHead sep (Orders.splitHead sep s) = Orders.splitHead sep s.
Proof.
  induction s as [|c s IH]; [reflexivity|]. cbn [Orders.splitHead].
  destruct (Ascii.eqb c sep) eqn:E; [reflexivity|].
  cbn [Orders.splitHead]. rewrite E, IH. reflexivity.
Qed.

Lemma selected_by_head symbol response :
  Orders.splitHead "/" symbol <> EmptyString ->
  selected (Some symbol) response
  = filter (fun o => String.eqb (Orders.coin o) (Orders.splitHead "/" symbol))
      response.
Proof.
  intros Hh. unfold selected.
  destruct symbol as [|c s]; [now cbn in Hh|].
  destruct (Orders.splitHead "/" (String c s)); [congruence | reflexivity].
Qed.

(** X10.  The symbol filter of getOpenOrders only looks at the text before
    the first "/": a full symbol and its base select the same orders, and
    every order returned belongs to that coin. *)
Theorem open_orders_filter_by_base clients symbol :
  Orders.splitHead "/" symbol <> EmptyString ->
  Orders.getOpenOrders clients (Some symbol)
  = Orders.getOpenOrders clients (Some (Orders.splitHead "/" symbol)) /\
  (forall response markets l orders,
     Orders.info_openOrders clients = inr response ->
     Orders.getMarkets clients = inr markets ->
     Orders.getOpenOrders clients (Some symbol) = (l, inr orders) ->
     Forall (fun ord =>
               exists n, In n response /\
                 Orders.coin n = Orders.splitHead "/" symbol /\
                 Orders.Order.id ord = toString (Orders.oid n)) orders).
Proof.
  intros Hh.
  assert (Hsel : forall response,
            selected (Some symbol) response
            = selected (Some (Orders.splitHead "/" symbol)) response).
  { intros response. rewrite !selected_by_head;
      rewrite ?splitHead_idempotent; auto. }
  split.
  - destruct (Orders.info_openOrders clients) as [e|response] eqn:Hi.
    { now rewrite !(proj1 (getOpenOrders_failed clients _) e Hi). }
    destruct (Orders.getMarkets clients) as [e|markets] eqn:Hm.
    { now rewrite !(proj2 (getOpenOrders_failed clients _) e response Hi Hm). }
    rewrite !(getOpenOrders_answered clients _ response markets Hi Hm).
    now rewrite Hsel.
  - intros response markets l orders Hi Hm Hrun.
    rewrite (getOpenOrders_answered clients _ response markets Hi Hm) in Hrun.
    injection Hrun as _ <-.
    apply Forall_forall. intros ord Hin. apply in_map_iff in Hin.
    destruct Hin as [n [<- Hn]]. exists n.
    change (In n (selected (Some symbol) response)) in Hn.
    rewrite (selected_by_head symbol response Hh) in Hn.
    apply filter_In in Hn. destruct Hn as [Hn Hc].
    apply String.eqb_eq in Hc. repeat split; assumption.
Qed.

Lemma open_orders_filter_by_base_witness :
  Orders.getOpenOrders (exampleClients (inr [])) (Some "ETH/USD:USD"%string)
  = Orders.getOpenOrders (exampleClients (inr [])) (Some "ETH"%string).
Proof.
  refine (proj1 (open_orders_filter_by_base (exampleClients (inr []))
                   "ETH/USD:USD" _)).
  discriminate.
Defined.

(** ** What cancel-all asks the exchange *)

Lemma marketOf_some markets coin market :
  marketOf markets coin = Some market ->
  In market markets /\ Market.base market = coin.
Proof.
  intros H. apply find_some in H. destruct H as [Hin Hb].
  apply String.eqb_eq in Hb. now split.
Qed.

Lemma mapM_toCancel_listed markets natives :
  marketsWellFormed markets ->
  (forall n, In n natives -> marketOf markets (Orders.coin n) <> None) ->
  Orders.mapM (Orders.toCancel markets)
    (map (fun n =>
            Orders.Order.mk (toString (Orders.oid n))
              match marketOf markets (Orders.coin n) with
              | Some market => Market.symbol market
              | None => (Orders.coin n ++ "/USD:USD")%string
              end)
         natives)
  = ([], inr (cancelsFor markets natives)).
Proof.
  intros Hwf. induction natives as [|n rest IH]; intros Hl; [reflexivity|].
  cbn [map Orders.mapM cancelsFor].
  destruct (marketOf markets (Orders.coin n)) as [market|] eqn:Hmk;
    [|exfalso; apply (Hl n); [now left | exact Hmk]].
  destruct (marketOf_some _ _ _ Hmk) as [Hin Hb].
  assert (Hhead : Orders.splitHead "/" (Market.symbol market) = Orders.coin n).
  { unfold marketsWellFormed in Hwf. rewrite Forall_forall in Hwf.
    now rewrite (Hwf market Hin). }
  unfold Orders.toCancel at 1. cbn [Orders.Order.symbol Orders.Order.id].
  rewrite Hhead. fold (marketOf markets (Orders.coin n)). rewrite Hmk.
  rewrite parseInt_toString, IH by (intros n' Hn'; apply Hl; now right).
  reflexivity.
Qed.

(** X11.  With markets whose symbol starts with their base and open orders
    on listed coins only, cancel-all sends one batch with one request per
    selected open order, in order, each carrying that order's oid and the
    asset id of its coin's market, and how the run ends is decided by the
    answer to that batch alone: a status list (returned or wrapped in a
    thrown error) makes it complete with the tallies of that list, a thrown
    error without statuses is rethrown. *)
Theorem cancel_all_requests clients symbol response markets :
  Orders.info_openOrders clients = inr response ->
  Orders.getMarkets clients = inr markets ->
  marketsWellFormed markets ->
  (forall n, In n (selected symbol response) ->
             marketOf markets (Orders.coin n) <> None) ->
  selected symbol response <> [] ->
  let cancels := cancelsFor markets (selected symbol response) in
  map Orders.o cancels
  = map (fun n => Some (Orders.oid n)) (selected symbol response) /\
  (forall statuses,
     statusesOf (Orders.exchange_cancel clients cancels) = Some statuses ->
     snd (Orders.cancelAllOrders clients symbol) = inr tt /\
     In (Orders.info_canceled (successes statuses) (failures statuses))
        (fst (Orders.cancelAllOrders clients symbol))) /\
  (forall e,
     Orders.exchange_cancel clients cancels = inl e ->
     Orders.wrappedStatuses e = None ->
     snd (Orders.cancelAllOrders clients symbol) = inl e).
Proof.
  intros Hi Hm Hwf Hl Hne cancels.
  split; [unfold cancels, cancelsFor; now rewrite map_map|].
  assert (Hrun : Orders.cancelAllOrders clients symbol
                 = cancelAllStages clients symbol)
    by apply cancelAllOrders_stages.
  unfold cancelAllStages in Hrun.
  rewrite (getOpenOrders_answered clients symbol response markets Hi Hm), Hm,
    (mapM_toCancel_listed markets _ Hwf Hl) in Hrun.
  fold cancels in Hrun.
  destruct (selected symbol response) as [|n rest] eqn:Hsel; [congruence|].
  cbn [map] in Hrun.
  split.
  - intros statuses Hs. rewrite Hrun.
    destruct (Orders.exchange_cancel clients cancels) as [e|answered];
      cbn [statusesOf] in Hs; [rewrite Hs | injection Hs as ->];
      (split; [reflexivity|]); cbn [fst];
      rewrite !in_app_iff; right; right; right; now left.
  - intros e Hx Hw. rewrite Hrun, Hx, Hw. reflexivity.
Qed.

Lemma cancel_all_requests_witness :
  snd (Orders.cancelAllOrders (exampleClients (inr mixedStatuses)) None) = inr tt /\
  In (Orders.info_canceled 2 1)
     (fst (Orders.cancelAllOrders (exampleClients (inr mixedStatuses)) None)).
Proof.
  destruct (cancel_all_requests (exampleClients (inr mixedStatuses)) None
              _ _ eq_refl eq_refl) as [_ [H _]].
  - repeat constructor.
  - intros n [<- | [<- | []]]; discriminate.
  - discriminate.
  - exact (H mixedStatuses eq_refl).
Defined.

Lemma splitHead_fallback sep coin rest :
  Orders.splitHead sep coin = coin ->
  Orders.splitHead sep (coin ++ String sep rest) = coin.
Proof.
  induction coin as [|c s IH]; cbn [Orders.splitHead append].
  - intros _. now rewrite Ascii.eqb_refl.
  - destruct (Ascii.eqb c sep); [discriminate|].
    intros H. injection H as H. now rewrite (IH H).
Qed.

Lemma mapM_toCancel_returned markets openOrders l cancels :
  Orders.mapM (Orders.toCancel markets) openOrders = (l, inr cancels) ->
  forall order, In order openOrders ->
    marketOf markets (Orders.splitHead "/" (Orders.Order.symbol order)) <> None.
Proof.
  revert l cancels. induction openOrders as [|first rest IH];
    intros l cancels H order Hin; [destruct Hin|].
  cbn [Orders.mapM] in H. unfold Orders.toCancel at 1 in H.
  fold (marketOf markets (Orders.splitHead "/" (Orders.Order.symbol first))) in H.
  destruct (marketOf markets (Orders.splitHead "/" (Orders.Order.symbol first)))
    as [market|] eqn:Hf; [|discriminate H].
  destruct Hin as [<- | Hin]; [congruence|].
  destruct (Orders.mapM (Orders.toCancel markets) rest) as [l' [e|cs]] eqn:Hr;
    [discriminate H|].
  exact (IH _ _ eq_refl order Hin).
Qed.

(** X12.  An open order on a coin that no market lists (and whose name has
    no "/") makes cancel-all throw "Market not found" before anything is
    sent: the run is the same whatever the exchange would answer to a
    cancel. *)
Theorem cancel_all_unlisted_coin clients symbol response markets n :
  Orders.info_openOrders clients = inr response ->
  Orders.getMarkets clients = inr markets ->
  In n (selected symbol response) ->
  marketOf markets (Orders.coin n) = None ->
  Orders.splitHead "/" (Orders.coin n) = Orders.coin n ->
  (exists sym,
     snd (Orders.cancelAllOrders clients symbol)
     = inl (Orders.MarketNotFound sym)) /\
  (forall answer,
     Orders.cancelAllOrders
       {| Orders.info_openOrders := Orders.info_openOrders clients;
          Orders.getMarkets := Orders.getMarkets clients;
          Orders.exchange_cancel := answer |} symbol
     = Orders.cancelAllOrders clients symbol).
Proof.
  intros Hi Hm Hn Hmk Hc.
  set (orders := map (fun n => Orders.Order.mk (toString (Orders.oid n))
                        match marketOf markets (Orders.coin n) with
                        | Some market => Market.symbol market
                        | None => (Orders.coin n ++ "/USD:USD")%string
                        end) (selected symbol response)).
  assert (Hbad : exists sym,
            Orders.mapM (Orders.toCancel markets) orders
            = ([], inl (Orders.MarketNotFound sym))).
  { destruct (mapM_toCancel markets orders)
      as [[cancels [Hok _]] | [bad [_ [_ Hko]]]]; [|eauto].
    exfalso.
    apply (mapM_toCancel_returned markets orders _ _ Hok
             (Orders.Order.mk (toString (Orders.oid n))
                (Orders.coin n ++ "/USD:USD")%string)).
    - unfold orders. apply in_map_iff. exists n. now rewrite Hmk.
    - cbn [Orders.Order.symbol]. now rewrite (splitHead_fallback _ _ _ Hc). }
  destruct Hbad as [sym Hbad].
  assert (Hne : orders <> []).
  { unfold orders. destruct (selected symbol response); [destruct Hn | discriminate]. }
  assert (Hrun : forall clients',
            Orders.info_openOrders clients' = inr response ->
            Orders.getMarkets clients' = inr markets ->
            exists l, Orders.cancelAllOrders clients' symbol
                      = (l, inl (Orders.MarketNotFound sym))
                      /\ l = [Orders.debug_fetching;
                              Orders.debug_fetched (List.length orders);
                              Orders.debug_canceling (List.length orders);
                              Orders.error_cancelAll (Orders.MarketNotFound sym)]).
  { intros clients' Hi' Hm'.
    rewrite cancelAllOrders_stages. unfold cancelAllStages.
    rewrite (getOpenOrders_answered clients' symbol response markets Hi' Hm'), Hm'.
    fold orders. rewrite Hbad.
    assert (Hlen : List.length (selected symbol response) = List.length orders)
      by (unfold orders; now rewrite length_map).
    rewrite Hlen.
    destruct orders as [|o os]; [congruence|]. eexists. split; reflexivity. }
  split.
  - destruct (Hrun clients Hi Hm) as [l [H _]]. exists sym. now rewrite H.
  - intros answer.
    destruct (Hrun clients Hi Hm) as [l [H ->]].
    destruct (Hrun {| Orders.info_openOrders := Orders.info_openOrders clients;
                      Orders.getMarkets := Orders.getMarkets clients;
                      Orders.exchange_cancel := answer |} Hi Hm) as [l' [H' ->]].
    now rewrite H, H'.
Qed.

Lemma cancel_all_unlisted_coin_witness :
  exists sym,
    snd (Orders.cancelAllOrders (unlistedClients (inr [Orders.success])) None)
    = inl (Orders.MarketNotFound sym).
Proof.
  refine (proj1 (cancel_all_unlisted_coin (unlistedClients (inr [Orders.success]))
                   None _ _ {| Orders.coin := "DOGE"; Orders.oid := 3 |}
                   eq_refl eq_refl _ eq_refl eq_refl)).
  now left.
Defined.

(** ** cancelOrder *)

Lemma cancelOrder_with_symbol clients orderId symbol markets market :
  symbol <> EmptyString ->
  Orders.getMarkets clients = inr markets ->
  Orders.findMarket markets symbol = Some market ->
  Orders.cancelOrder clients orderId (Some symbol)
  = match Orders.exchange_cancel clients
            [ {| Orders.a := Orders.parseInt (Market.id market);
                 Orders.o := Orders.parseInt orderId |} ] with
    | inl e => inl e
    | inr [] => Orders.Error "No cancellation status in response"
    | inr (Orders.success :: _) => inr tt
    | inr (Orders.error message :: _) =>
        Orders.Error ("Order cancellation failed: " ++ message)
    end.
Proof.
  intros Hs Hm Hf. unfold Orders.cancelOrder. rewrite Hm.
  destruct symbol as [|c s]; [congruence|].
  cbn [Orders.andThen]. rewrite Hf. cbn [Orders.andThen].
  destruct (Orders.exchange_cancel clients _) as [e|[|[|message] rest]];
    reflexivity.
Qed.

(** X13.  Cancelling one order on a known symbol succeeds exactly when the
    exchange returns the success sentinel as first status.  Every other
    answer throws: an empty status list, an error status (also one that says
    the order was already canceled or filled), and a thrown gateway error,
    which is passed on as it is even when it wraps a status list. *)
Theorem cancel_order_outcome clients orderId symbol markets market :
  symbol <> EmptyString ->
  Orders.getMarkets clients = inr markets ->
  Orders.findMarket markets symbol = Some market ->
  let request := [ {| Orders.a := Orders.parseInt (Market.id market);
                      Orders.o := Orders.parseInt orderId |} ] in
  (Orders.cancelOrder clients orderId (Some symbol) = inr tt <->
   exists rest, Orders.exchange_cancel clients request = inr (Orders.success :: rest)) /\
  (forall e,
     Orders.exchange_cancel clients request = inl e ->
     Orders.cancelOrder clients orderId (Some symbol) = inl e) /\
  (forall message rest,
     Orders.exchange_cancel clients request = inr (Orders.error message :: rest) ->
     Orders.cancelOrder clients orderId (Some symbol)
     = Orders.Error ("Order cancellation failed: " ++ message)) /\
  (Orders.exchange_cancel clients request = inr [] ->
   Orders.cancelOrder clients orderId (Some symbol)
   = Orders.Error "No cancellation status in response").
Proof.
  intros Hs Hm Hf request.
  rewrite (cancelOrder_with_symbol clients orderId symbol markets market Hs Hm Hf).
  fold request.
  destruct (Orders.exchange_cancel clients request) as [e|[|[|message] rest]].
  - split; [split; [discriminate | intros [r H]; discriminate]|].
    split; [intros e0 H; congruence|]. split; [discriminate | discriminate].
  - split; [split; [discriminate | intros [r H]; discriminate]|].
    split; [discriminate|]. split; [discriminate | reflexivity].
  - split; [split; [intros _; now exists rest | reflexivity]|].
    split; [discriminate|]. split; [discriminate | discriminate].
  - split; [split; [discriminate | intros [r H]; discriminate]|].
    split; [discriminate|]. split; [|discriminate].
    intros m r H. injection H as -> _. reflexivity.
Qed.

Lemma cancel_order_outcome_witness :
  Orders.cancelOrder (exampleClients (inr [alreadyGone])) "12"
    (Some "BTC/USD:USD"%string)
  = Orders.Error
      "Order cancellation failed: Order was never placed, already canceled, or filled.".
Proof.
  refine (proj1 (proj2 (proj2
            (cancel_order_outcome (exampleClients (inr [alreadyGone])) "12"
               "BTC/USD:USD" [exampleMarket; ethMarket] exampleMarket
               _ eq_refl eq_refl))) _ [] eq_refl).
  discriminate.
Defined.

Lemma toString_injective a b : toString a = toString b -> a = b.
Proof.
  intros H. pose proof (parseInt_toString a) as Ha.
  rewrite H, parseInt_toString in Ha. congruence.
Qed.

Lemma find_order_by_id markets response n :
  NoDup (map Orders.oid response) ->
  In n response ->
  find (fun o => String.eqb (Orders.Order.id o) (toString (Orders.oid n)))
    (map (fun n =>
            Orders.Order.mk (toString (Orders.oid n))
              match marketOf markets (Orders.coin n) with
              | Some market => Market.symbol market
              | None => (Orders.coin n ++ "/USD:USD")%string
              end) response)
  = Some (Orders.Order.mk (toString (Orders.oid n))
            match marketOf markets (Orders.coin n) with
            | Some market => Market.symbol market
            | None => (Orders.coin n ++ "/USD:USD")%string
            end).
Proof.
  induction response as [|first rest IH]; intros Hnd Hin; [destruct Hin|].
  cbn [map find Orders.Order.id]. inversion Hnd as [|x xs Hnotin Hnd']; subst.
  destruct Hin as [-> | Hin].
  - now rewrite String.eqb_refl.
  - destruct (String.eqb (toString (Orders.oid first)) (toString (Orders.oid n)))
      eqn:E; [|now apply IH].
    apply String.eqb_eq, toString_injective in E.
    exfalso. apply Hnotin. rewrite E. now apply in_map.
Qed.

Lemma find_no_order markets response orderId :
  (forall n, In n response -> toString (Orders.oid n) <> orderId) ->
  find (fun o => String.eqb (Orders.Order.id o) orderId)
    (map (fun n =>
            Orders.Order.mk (toString (Orders.oid n))
              match marketOf markets (Orders.coin n) with
              | Some market => Market.symbol market
              | None => (Orders.coin n ++ "/USD:USD")%string
              end) response)
  = None.
Proof.
  induction response as [|first rest IH]; intros H; [reflexivity|].
  cbn [map find Orders.Order.id].
  destruct (String.eqb (toString (Orders.oid first)) orderId) eqn:E.
  - apply String.eqb_eq in E. exfalso. apply (H first); [now left | exact E].
  - apply IH. intros n Hn. apply H. now right.
Qed.

Lemma findMarket_by_base markets coin :
  marketsWellFormed markets ->
  Orders.splitHead "/" coin = coin ->
  Orders.findMarket markets coin = marketOf markets coin.
Proof.
  intros Hwf Hc. unfold Orders.findMarket, marketOf. rewrite Hc.
  unfold marketsWellFormed in Hwf.
  induction markets as [|mk rest IH]; [reflexivity|].
  inversion Hwf as [|x xs Hhead Hrest]; subst. cbn [find].
  destruct (String.eqb (Market.base mk) coin) eqn:Eb.
  - now rewrite orb_true_r.
  - rewrite orb_false_r.
    destruct (String.eqb (Market.symbol mk) coin) eqn:Es; [|now apply IH].
    apply String.eqb_eq in Es. rewrite Es, Hc in Hhead.
    rewrite <- Hhead, String.eqb_refl in Eb. discriminate.
Qed.

(** X14.  cancelOrder without a symbol looks the order up among the open
    orders: an id that no open order has throws "Order not found" whatever
    the exchange would answer; and for an open order on a listed coin (ids
    distinct, markets' symbols starting with their base) leaving the symbol
    out gives the same result as passing the order's coin. *)
Theorem cancel_order_symbol_optional clients response markets :
  Orders.info_openOrders clients = inr response ->
  Orders.getMarkets clients = inr markets ->
  (forall orderId,
     (forall n, In n response -> toString (Orders.oid n) <> orderId) ->
     Orders.cancelOrder clients orderId None
     = Orders.Error ("Order not found: " ++ orderId)) /\
  (forall n,
     marketsWellFormed markets ->
     NoDup (map Orders.oid response) ->
     In n response ->
     Orders.coin n <> EmptyString ->
     Orders.splitHead "/" (Orders.coin n) = Orders.coin n ->
     marketOf markets (Orders.coin n) <> None ->
     Orders.cancelOrder clients (toString (Orders.oid n)) None
     = Orders.cancelOrder clients (toString (Orders.oid n))
         (Some (Orders.coin n))).
Proof.
  intros Hi Hm. split.
  - intros orderId Hno. unfold Orders.cancelOrder. rewrite Hm.
    cbn [Orders.andThen].
    rewrite (getOpenOrders_answered clients None response markets Hi Hm).
    cbn [snd Orders.andThen selected].
    rewrite (find_no_order markets response orderId Hno). reflexivity.
  - intros n Hwf Hnd Hin Hne Hc Hl.
    destruct (marketOf markets (Orders.coin n)) as [market|] eqn:Hmk;
      [|congruence].
    assert (Hf : Orders.findMarket markets (Orders.coin n) = Some market)
      by (rewrite (findMarket_by_base markets _ Hwf Hc); exact Hmk).
    rewrite (cancelOrder_with_symbol clients _ (Orders.coin n) markets market
               Hne Hm Hf).
    unfold Orders.cancelOrder. rewrite Hm. cbn [Orders.andThen].
    rewrite (getOpenOrders_answered clients None response markets Hi Hm).
    cbn [snd Orders.andThen selected].
    rewrite (find_order_by_id markets response n Hnd Hin), Hmk.
    cbn [Orders.Order.symbol].
    destruct (marketOf_some _ _ _ Hmk) as [Hinm Hb].
    assert (Hhead : Orders.splitHead "/" (Market.symbol market) = Orders.coin n).
    { unfold marketsWellFormed in Hwf. rewrite Forall_forall in Hwf.
      now rewrite (Hwf market Hinm). }
    rewrite Hhead. fold (marketOf markets (Orders.coin n)). rewrite Hmk.
    cbn [Orders.andThen].
    destruct (Orders.exchange_cancel clients _) as [e|[|[|message] rest]];
      reflexivity.
Qed.

Lemma cancel_order_symbol_optional_witness :
  Orders.cancelOrder (exampleClients (inr [Orders.success])) "13" None
  = Orders.Error "Order not found: 13" /\
  Orders.cancelOrder (exampleClients (inr [Orders.success])) "7" None
  = Orders.cancelOrder (exampleClients (inr [Orders.success])) "7" (Some "ETH"%string).
Proof.
  destruct (cancel_order_symbol_optional (exampleClients (inr [Orders.success]))
              _ _ eq_refl eq_refl) as [H1 H2].
  split.
  - apply (H1 "13"%string).
    intros n [<- | [<- | []]]; discriminate.
  - apply (H2 {| Orders.coin := "ETH"; Orders.oid := 7 |}).
    + repeat constructor.
    + repeat constructor; cbn; intuition discriminate.
    + right. left. reflexivity.
    + discriminate.
    + reflexivity.
    + discriminate.
Defined.

(** X15.  The same answer ends a single cancel and a bulk cancel
    differently: when the exchange says the one open order was already
    canceled or filled, cancelOrder throws "Order cancellation failed",
    while cancelAllOrders completes and reports 1 success and 0 failures. *)
Theorem already_gone_single_versus_bulk clients n markets market message :
  Orders.info_openOrders clients = inr [n] ->
  Orders.getMarkets clients = inr markets ->
  marketsWellFormed markets ->
  marketOf markets (Orders.coin n) = Some market ->
  (forall request,
     Orders.exchange_cancel clients request = inr [Orders.error message]) ->
  Orders.isAlreadyGone message = true ->
  Orders.cancelOrder clients (toString (Orders.oid n)) None
  = Orders.Error ("Order cancellation failed: " ++ message) /\
  snd (Orders.cancelAllOrders clients None) = inr tt /\
  In (Orders.info_canceled 1 0) (fst (Orders.cancelAllOrders clients None)).
Proof.
  intros Hi Hm Hwf Hmk Hx Hg.
  destruct (marketOf_some _ _ _ Hmk) as [Hinm Hb].
  assert (Hhead : Orders.splitHead "/" (Market.symbol market) = Orders.coin n).
  { unfold marketsWellFormed in Hwf. rewrite Forall_forall in Hwf.
    now rewrite (Hwf market Hinm). }
  split.
  - unfold Orders.cancelOrder. rewrite Hm. cbn [Orders.andThen].
    rewrite (getOpenOrders_answered clients None [n] markets Hi Hm).
    cbn [snd Orders.andThen selected map find Orders.Order.id].
    rewrite String.eqb_refl, Hmk. cbn [Orders.Order.symbol].
    rewrite Hhead. fold (marketOf markets (Orders.coin n)). rewrite Hmk.
    cbn [Orders.andThen]. rewrite Hx. reflexivity.
  - rewrite cancelAllOrders_stages. unfold cancelAllStages.
    rewrite (getOpenOrders_answered clients None [n] markets Hi Hm), Hm.
    cbn [selected].
    rewrite (mapM_toCancel_listed markets [n] Hwf)
      by (intros n' [<- | []]; congruence).
    cbn [map]. rewrite Hx.
    unfold successes, failures. cbn [filter countsAsSuccess failureReports].
    rewrite Hg. cbn. split; [reflexivity|]. auto.
Qed.

Lemma already_gone_single_versus_bulk_witness :
  Orders.cancelOrder (unlistedClients (inr [alreadyGone])) "3" None
  <> inr tt /\
  Orders.cancelOrder (oneOrderClients (inr [alreadyGone])) "12" None
  = Orders.Error
      "Order cancellation failed: Order was never placed, already canceled, or filled."
  /\ snd (Orders.cancelAllOrders (oneOrderClients (inr [alreadyGone])) None)
     = inr tt.
Proof.
  split; [discriminate|].
  destruct (already_gone_single_versus_bulk (oneOrderClients (inr [alreadyGone]))
              {| Orders.coin := "BTC"; Orders.oid := 12 |}
              [exampleMarket; ethMarket] exampleMarket
              "Order was never placed, already canceled, or filled."
              eq_refl eq_refl)
    as [H1 [H2 _]].
  - repeat constructor.
  - reflexivity.
  - reflexivity.
  - reflexivity.
  - split; [exact H1 | exact H2].
Defined.

(** ** placeOrder *)

Lemma placeOrder_submitted
    clients exchange_order now order clientId markets market params :
  Orders.getMarkets clients = inr markets ->
  Orders.findMarket markets (OrderRequest.symbol order) = Some market ->
  Orders.orderParams market order clientId = inr params ->
  Orders.placeOrder clients exchange_order now order clientId
  = Orders.andThen (exchange_order params) (Orders.orderResult now).
Proof.
  intros Hm Hf Hp. unfold Orders.placeOrder. rewrite Hm.
  cbn [Orders.andThen]. rewrite Hf, Hp. reflexivity.
Qed.

Lemma orderResult_returned now statuses result :
  Orders.orderResult now statuses = inr result ->
  Orders.OrderResult.raw result = statuses /\
  Orders.OrderResult.timestamp result = now /\
  exists oid,
    Orders.parseInt (Orders.OrderResult.orderId result) = Some oid /\
    ((nth_error statuses 0
      = Some (Orders.statusResting oid (Orders.OrderResult.clientId result)) /\
      Orders.OrderResult.status result = Orders.open) \/
     (exists totalSz avgPx,
        nth_error statuses 0
        = Some (Orders.statusFilled oid (Orders.OrderResult.clientId result)
                  totalSz avgPx) /\
        Orders.OrderResult.status result = Orders.closed)).
Proof.
  unfold Orders.orderResult.
  destruct (nth_error statuses 0) as [[s|m|oid cloid|oid cloid sz px|j]|];
    try discriminate.
  - destruct s; [discriminate|].
    destruct (String.eqb _ "waitingForFill"); [discriminate|].
    destruct (String.eqb _ "waitingForTrigger"); discriminate.
  - intros H. injection H as <-. cbn. repeat split. exists oid.
    split; [apply parseInt_toString | left; now split].
  - intros H. injection H as <-. cbn. repeat split. exists oid.
    split; [apply parseInt_toString | right; exists sz, px; now split].
Qed.

(** X16.  An order that reaches the exchange yields a result only when the
    first status of the response is "resting" (status open) or "filled"
    (status closed); the result's orderId is the decimal text of the
    exchange's oid and parses back to it, its clientId is the status's
    cloid and its timestamp the current time.  A thrown gateway error is
    passed on, an error status throws "Order rejected" with the exchange's
    message, and a response without statuses throws too. *)
Theorem place_order_outcome
    clients exchange_order now order clientId markets market params :
  Orders.getMarkets clients = inr markets ->
  Orders.findMarket markets (OrderRequest.symbol order) = Some market ->
  Orders.orderParams market order clientId = inr params ->
  let run := Orders.placeOrder clients exchange_order now order clientId in
  (forall result,
     run = inr result ->
     exists statuses oid,
       exchange_order params = inr statuses /\
       Orders.OrderResult.raw result = statuses /\
       Orders.OrderResult.timestamp result = now /\
       Orders.parseInt (Orders.OrderResult.orderId result) = Some oid /\
       ((nth_error statuses 0
         = Some (Orders.statusResting oid (Orders.OrderResult.clientId result)) /\
         Orders.OrderResult.status result = Orders.open) \/
        (exists totalSz avgPx,
           nth_error statuses 0
           = Some (Orders.statusFilled oid (Orders.OrderResult.clientId result)
                     totalSz avgPx) /\
           Orders.OrderResult.status result = Orders.closed))) /\
  (forall e, exchange_order params = inl e -> run = inl e) /\
  (forall message rest,
     exchange_order params = inr (Orders.statusError message :: rest) ->
     run = Orders.Error ("Order rejected: " ++ message)) /\
  (exchange_order params = inr [] ->
   run = Orders.Error "No order status in response").
Proof.
  intros Hm Hf Hp run. subst run.
  rewrite (placeOrder_submitted _ exchange_order now _ _ _ _ _ Hm Hf Hp).
  split; [|split; [|split]].
  - intros result H.
    destruct (exchange_order params) as [e|statuses]; [discriminate|].
    cbn [Orders.andThen] in H.
    destruct (orderResult_returned now statuses result H) as [Hr [Ht [oid Ho]]].
    exists statuses, oid. repeat split; tauto.
  - intros e ->. reflexivity.
  - intros message rest ->. reflexivity.
  - intros ->. reflexivity.
Qed.

Lemma place_order_outcome_witness :
  Orders.placeOrder (exampleClients (inr []))
    (fun _ => inr [Orders.statusError "Post only order would have immediately matched"])
    1700000000000 restingBid None
  = Orders.Error "Order rejected: Post only order would have immediately matched".
Proof.
  refine (proj1 (proj2 (proj2
            (place_order_outcome (exampleClients (inr [])) _ 1700000000000
               restingBid None [exampleMarket; ethMarket] exampleMarket
               _ eq_refl eq_refl eq_refl))) _ [] eq_refl).
Defined.

(** X17.  placeOrder sends nothing when it cannot build the request: if the
    markets cannot be fetched, if no market matches the order's symbol
    (by full symbol or by base), or if the market's price or size precision
    is outside 0..100, it throws the same error whatever the exchange would
    answer. *)
Theorem place_order_not_submitted clients now order clientId :
  (forall e,
     Orders.getMarkets clients = inl e ->
     forall exchange_order,
       Orders.placeOrder clients exchange_order now order clientId = inl e) /\
  (forall markets,
     Orders.getMarkets clients = inr markets ->
     (forall m, In m markets ->
        Market.symbol m <> OrderRequest.symbol order /\
        Market.base m <> Orders.splitHead "/" (OrderRequest.symbol order)) ->
     forall exchange_order,
       Orders.placeOrder clients exchange_order now order clientId
       = inl (Orders.MarketNotFound (OrderRequest.symbol order))) /\
  (forall markets market,
     Orders.getMarkets clients = inr markets ->
     Orders.findMarket markets (OrderRequest.symbol order) = Some market ->
     (Market.pricePrecision market < 0 \/ 100 < Market.pricePrecision market \/
      Market.sizePrecision market < 0 \/ 100 < Market.sizePrecision market)%Z ->
     forall exchange_order,
       Orders.placeOrder clients exchange_order now order clientId
       = Orders.Error "toFixed() digits argument must be between 0 and 100").
Proof.
  split; [|split].
  - intros e Hm ex. unfold Orders.placeOrder. now rewrite Hm.
  - intros markets Hm Hno ex. unfold Orders.placeOrder. rewrite Hm.
    cbn [Orders.andThen].
    assert (Hf : Orders.findMarket markets (OrderRequest.symbol order) = None).
    { unfold Orders.findMarket.
      destruct (find _ markets) as [m|] eqn:E; [|reflexivity].
      apply find_some in E. destruct E as [Hin Hb].
      destruct (Hno m Hin) as [H1 H2].
      apply orb_true_iff in Hb. destruct Hb as [Hb | Hb];
        apply String.eqb_eq in Hb; congruence. }
    now rewrite Hf.
  - intros markets market Hm Hf Hrange ex. unfold Orders.placeOrder.
    rewrite Hm. cbn [Orders.andThen]. rewrite Hf.
    unfold Orders.orderParams, Orders.toFixed.
    destruct ((Market.pricePrecision market <? 0)
              || (100 <? Market.pricePrecision market))%Z eqn:Ep;
      [reflexivity|].
    cbn [Orders.andThen].
    destruct ((Market.sizePrecision market <? 0)
              || (100 <? Market.sizePrecision market))%Z eqn:Es;
      [reflexivity|].
    apply orb_false_iff in Ep, Es. destruct Ep as [Ep1 Ep2], Es as [Es1 Es2].
    apply Z.ltb_ge in Ep1, Ep2, Es1, Es2. lia.
Qed.

Lemma place_order_not_submitted_witness :
  Orders.placeOrder (exampleClients (inr []))
    (fun _ => inr [Orders.statusResting 77 None]) 1700000000000
    (OrderRequest.mk "SOL/USD:USD" buy limit 20 5 true false) None
  = inl (Orders.MarketNotFound "SOL/USD:USD").
Proof.
  refine (proj1 (proj2
            (place_order_not_submitted (exampleClients (inr [])) 1700000000000
               (OrderRequest.mk "SOL/USD:USD" buy limit 20 5 true false) None))
            [exampleMarket; ethMarket] eq_refl _ _).
  intros m [<- | [<- | []]]; split; discriminate.
Defined.

(** X18.  Every order the quoter emits goes to the exchange as a single
    add-liquidity-only ("Alo") limit request with no grouping: the buy flag
    follows the side, the reduce-only flag is the quoter's (override OR
    close mode, so always set in close mode), and the asset id is the
    market's. *)
Theorem quoter_orders_sent_post_only
    this fairPrice positionNotional orderbook reduceOnly market clientId o params :
  let q := Quoter.generateQuotes this fairPrice positionNotional orderbook in
  In o (Quoter.quoteToOrders this q reduceOnly) ->
  Orders.orderParams market o clientId = inr params ->
  Orders.OrderParams.grouping params = Orders.na /\
  exists w,
    Orders.OrderParams.orders params = [w] /\
    Orders.OrderParams.t w = Orders.Alo /\
    Orders.OrderParams.r w = (reduceOnly || Quote.isCloseMode q)%bool /\
    (Quote.isCloseMode q = true -> Orders.OrderParams.r w = true) /\
    Orders.OrderParams.b w
    = match OrderRequest.side o with buy => true | sell => false end /\
    Orders.OrderParams.a w = Orders.parseInt (Market.id market) /\
    Orders.OrderParams.c w = clientId.
Proof.
  intros q Hin Hp. unfold Orders.orderParams in Hp.
  destruct (Orders.toFixed (OrderRequest.price o) _) as [e|priceStr];
    [discriminate|].
  destruct (Orders.toFixed (OrderRequest.size o) _) as [e|sizeStr];
    [discriminate|].
  cbn [Orders.andThen] in Hp. injection Hp as <-.
  cbn [Orders.OrderParams.grouping Orders.OrderParams.orders].
  split; [reflexivity|]. eexists. split; [reflexivity|].
  cbn [Orders.OrderParams.t Orders.OrderParams.r Orders.OrderParams.b
       Orders.OrderParams.a Orders.OrderParams.c].
  apply In_quoteToOrders in Hin.
  destruct Hin as [[-> _] | [-> _]];
    cbn [sideOrder OrderRequest.postOnly OrderRequest.reduceOnly OrderRequest.side];
    repeat split; try reflexivity; intros ->; apply orb_true_r.
Qed.

Lemma quoter_orders_sent_post_only_witness :
  Forall (fun o =>
            forall params,
              Orders.orderParams exampleMarket o None = inr params ->
              exists w, Orders.OrderParams.orders params = [w] /\
                        Orders.OrderParams.t w = Orders.Alo)
    (Quoter.quoteToOrders exampleQuoter
       (Quoter.generateQuotes exampleQuoter 100 0 None) false).
Proof.
  apply Forall_forall. intros o Hin params Hp.
  destruct (quoter_orders_sent_post_only exampleQuoter 100 0 None false
              exampleMarket None o params Hin Hp) as [_ [w [Hw [Ht _]]]].
  exists w. split; assumption.
Defined.

(** ** toFixed *)

Lemma string_length_app (s1 s2 : string) :
  String.length (s1 ++ s2) = (String.length s1 + String.length s2)%nat.
Proof. induction s1; cbn; [reflexivity | now rewrite IHs1]. Qed.

Lemma string_app_nil (s : string) : (s ++ "")%string = s.
Proof. induction s; cbn; [reflexivity | now rewrite IHs]. Qed.

Lemma substring_split (s : string) : forall a,
  (a <= String.length s)%nat ->
  (substring 0 a s ++ substring a (String.length s - a) s)%string = s.
Proof.
  induction s as [|c s IH]; intros [|a] Ha; cbn in *; try reflexivity; try lia.
  - f_equal. specialize (IH O (Nat.le_0_l _)). cbn in IH.
    rewrite Nat.sub_0_r in IH.
    destruct s; [reflexivity|]. cbn in IH |- *. exact IH.
  - f_equal. apply IH. lia.
Qed.

Lemma substring_length (s : string) : forall a b,
  (a + b <= String.length s)%nat -> String.length (substring a b s) = b.
Proof.
  induction s as [|c s IH]; intros [|a] [|b] H; cbn in *;
    try reflexivity; try lia.
  - f_equal. apply (IH O b). lia.
  - apply (IH a O). lia.
  - apply (IH a (S b)). lia.
Qed.

Lemma digitsOnly_app (s1 s2 : string) :
  digitsOnly (s1 ++ s2) = digitsOnly s1 && digitsOnly s2.
Proof.
  induction s1; cbn; [reflexivity | now rewrite IHs1, andb_assoc].
Qed.

Lemma digitsNumber_app (s1 s2 : string) : forall acc,
  digitsNumber acc (s1 ++ s2) = digitsNumber (digitsNumber acc s1) s2.
Proof. induction s1; intros acc; cbn; [reflexivity | apply IHs1]. Qed.

Lemma readDecimal_digits (ds rest : string) : forall acc frac,
  digitsOnly ds = true ->
  readDecimal (ds ++ rest) acc frac
  = readDecimal rest (digitsNumber acc ds)
      (option_map (Nat.add (String.length ds)) frac).
Proof.
  induction ds as [|c ds IH]; intros acc frac H.
  - cbn. now destruct frac.
  - cbn in H. apply andb_true_iff in H. destruct H as [Hc Hds].
    cbn [append readDecimal digitsNumber]. rewrite Hc, (IH _ _ Hds).
    f_equal. destruct frac; cbn; [f_equal; lia | reflexivity].
Qed.

Lemma digitsOnly_zeros k : digitsOnly (Orders.zeros k) = true.
Proof. induction k; cbn; [reflexivity | exact IHk]. Qed.

Lemma digitsNumber_zeros k : digitsNumber 0 (Orders.zeros k) = 0%Z.
Proof. induction k; cbn; [reflexivity | exact IHk]. Qed.

Lemma length_zeros k : String.length (Orders.zeros k) = k.
Proof. induction k; cbn; [reflexivity | now rewrite IHk]. Qed.

Lemma digitsOnly_uint d : digitsOnly (NilEmpty.string_of_uint d) = true.
Proof. induction d; cbn; [reflexivity | exact IHd ..]. Qed.

Lemma digitsNumber_uint_acc d : forall p,
  digitsNumber (Z.pos p) (NilEmpty.string_of_uint d)
  = Z.pos (Pos.of_uint_acc d p).
Proof.
  induction d; intros p;
    cbn [NilEmpty.string_of_uint digitsNumber Pos.of_uint_acc];
    try reflexivity;
    (rewrite <- IHd; f_equal; try (eval_digit; lia)).
Qed.

Lemma digitsNumber_uint d :
  digitsNumber 0 (NilEmpty.string_of_uint d) = Z.of_N (Pos.of_uint d).
Proof.
  induction d; cbn [NilEmpty.string_of_uint digitsNumber Pos.of_uint];
    try reflexivity; try exact IHd;
    (eval_digit; cbn [Z.mul Z.add]; apply digitsNumber_uint_acc).
Qed.

(** The digits of a nonnegative integer, as [toFixed] writes them. *)
Lemma integer_text (n : Z) :
  (0 <= n)%Z ->
  let m := NilZero.string_of_uint (N.to_uint (Z.to_N n)) in
  digitsOnly m = true /\ digitsNumber 0 m = n /\ (1 <= String.length m)%nat.
Proof.
  intros Hn. destruct n as [|p|p]; [cbn; repeat split; lia | | lia].
  cbn [Z.to_N N.to_uint]. unfold NilZero.string_of_uint.
  pose proof (Unsigned.to_uint_nonnil p) as Hnil.
  pose proof (Unsigned.of_to p) as Hof.
  pose proof (digitsNumber_uint (Pos.to_uint p)) as Hv. rewrite Hof in Hv.
  pose proof (digitsOnly_uint (Pos.to_uint p)) as Hd.
  destruct (Pos.to_uint p) eqn:E; try congruence;
    (split; [exact Hd | split; [exact Hv | cbn; lia]]).
Qed.

Lemma nearestInteger_nonneg x : 0 <= x -> (0 <= Orders.nearestInteger x)%Z.
Proof.
  intros Hx. unfold Orders.nearestInteger.
  change 0%Z with (Qfloor 0). apply Qfloor_resp_le. lra.
Qed.

Lemma nearestInteger_close x :
  Qabs (inject_Z (Orders.nearestInteger x) - x) <= 1 # 2.
Proof.
  unfold Orders.nearestInteger.
  pose proof (Qfloor_le (x + (1 # 2))) as Hlo.
  pose proof (Qlt_floor (x + (1 # 2))) as Hhi.
  rewrite inject_Z_plus in Hhi. change (inject_Z 1) with 1 in Hhi.
  apply Qabs_Qle_condition. split; lra.
Qed.

Lemma nearestInteger_of_integer (k : Z) :
  Orders.nearestInteger (inject_Z k) = k.
Proof.
  unfold Orders.nearestInteger.
  pose proof (Qfloor_le (inject_Z k + (1 # 2))) as Hlo.
  pose proof (Qlt_floor (inject_Z k + (1 # 2))) as Hhi.
  rewrite inject_Z_plus in Hhi. change (inject_Z 1) with 1 in Hhi.
  set (n := Qfloor (inject_Z k + (1 # 2))) in *.
  assert (H1 : inject_Z n < inject_Z (k + 1)).
  { rewrite inject_Z_plus. change (inject_Z 1) with 1. lra. }
  assert (H2 : inject_Z (k - 1) < inject_Z n).
  { unfold Z.sub. rewrite inject_Z_plus, inject_Z_opp.
    change (inject_Z 1) with 1. lra. }
  rewrite <- Zlt_Qlt in H1, H2. lia.
Qed.

Lemma isDigit_not_minus c : Orders.isDigit c = true -> Ascii.eqb c "-" = false.
Proof.
  intros H. destruct (Ascii.eqb_spec c "-") as [-> | ]; [discriminate H|].
  reflexivity.
Qed.

(** What [toFixed] writes: an optional sign and a digit text that reads
    back as the rounded integer, with [fractionDigits] digits after the
    point. *)
Lemma toFixed_text x (fractionDigits : Z) :
  (0 <= fractionDigits <= 100)%Z ->
  exists m,
    Orders.toFixed x fractionDigits
    = inr (if Qgtb 0 x then ("-" ++ m)%string else m) /\
    readDecimal m 0 None
    = Some (Orders.nearestInteger (Qabs x * 10 ^ fractionDigits),
            Z.to_nat fractionDigits) /\
    (exists c m', m = String c m' /\ Orders.isDigit c = true).
Proof.
  intros Hf. unfold Orders.toFixed.
  assert (Hr : ((fractionDigits <? 0) || (100 <? fractionDigits))%Z = false).
  { apply orb_false_iff. split; apply Z.ltb_ge; lia. }
  rewrite Hr.
  set (n := Orders.nearestInteger (Qabs x * 10 ^ fractionDigits)).
  assert (Hn : (0 <= n)%Z).
  { apply nearestInteger_nonneg. apply Qmult_le_0_compat;
      [apply Qabs_nonneg | apply Qlt_le_weak, ten_power_pos]. }
  destruct (integer_text n Hn) as [Hd [Hv Hl]].
  set (m := NilZero.string_of_uint (N.to_uint (Z.to_N n))) in *.
  set (f := Z.to_nat fractionDigits).
  destruct (f =? 0)%nat eqn:Ef.
  - apply Nat.eqb_eq in Ef. eexists. split; [reflexivity|]. split.
    + rewrite <- (string_app_nil m), (readDecimal_digits m "" 0 None Hd).
      cbn. now rewrite Hv, Ef.
    + destruct m as [|c m']; [cbn in Hl; lia|].
      exists c, m'. split; [reflexivity|]. cbn in Hd.
      now apply andb_true_iff in Hd.
  - apply Nat.eqb_neq in Ef.
    set (m1 := if (String.length m <=? f)%nat
               then (Orders.zeros (f + 1 - String.length m) ++ m)%string
               else m).
    assert (H1 : digitsOnly m1 = true /\ digitsNumber 0 m1 = n /\
                 (f + 1 <= String.length m1)%nat).
    { subst m1. destruct (String.length m <=? f)%nat eqn:El.
      - apply Nat.leb_le in El.
        rewrite digitsOnly_app, digitsOnly_zeros, Hd, digitsNumber_app,
          digitsNumber_zeros, Hv, string_length_app, length_zeros.
        repeat split. lia.
      - apply Nat.leb_gt in El. repeat split; [exact Hd | exact Hv | lia]. }
    destruct H1 as [Hd1 [Hv1 Hl1]].
    set (k := String.length m1) in *.
    pose proof (substring_split m1 (k - f) ltac:(lia)) as Hsplit.
    fold k in Hsplit. replace (k - (k - f))%nat with f in Hsplit by lia.
    set (pre := substring 0 (k - f) m1) in *.
    set (post := substring (k - f) f m1) in *.
    assert (Hpost : String.length post = f)
      by (apply substring_length; fold k; lia).
    assert (Hpre : String.length pre = (k - f)%nat)
      by (apply substring_length; fold k; lia).
    assert (Hdd : digitsOnly pre = true /\ digitsOnly post = true).
    { rewrite <- Hsplit, digitsOnly_app in Hd1.
      now apply andb_true_iff in Hd1. }
    destruct Hdd as [Hdpre Hdpost].
    exists (pre ++ "." ++ post)%string. split; [reflexivity|]. split.
    + rewrite (readDecimal_digits pre _ 0 None Hdpre).
      cbn [append option_map readDecimal].
      change (Orders.isDigit ".") with false.
      change (Ascii.eqb "." ".") with true. cbv iota.
      rewrite <- (string_app_nil post),
        (readDecimal_digits post "" _ (Some O) Hdpost).
      cbn [readDecimal option_map].
      rewrite <- digitsNumber_app, Hsplit, Hv1, Hpost, Nat.add_0_r.
      reflexivity.
    + destruct pre as [|c pre'] eqn:Epre; [cbn in Hpre; lia|].
      exists c, (pre' ++ "." ++ post)%string. split; [reflexivity|].
      cbn in Hdpre. now apply andb_true_iff in Hdpre.
Qed.

Lemma scaled_close (a b T : Q) :
  0 < T -> Qabs (a - b * T) <= 1 # 2 -> Qabs (a / T - b) <= (1 # 2) / T.
Proof.
  intros HT H. apply Qabs_Qle_condition in H. destruct H as [H1 H2].
  apply Qabs_Qle_condition.
  split; apply Qmult_le_r with (z := T); try exact HT.
  - setoid_replace (- ((1 # 2) / T) * T) with (- (1 # 2)) by (field; lra).
    setoid_replace ((a / T - b) * T) with (a - b * T) by (field; lra).
    exact H1.
  - setoid_replace ((1 # 2) / T * T) with (1 # 2) by (field; lra).
    setoid_replace ((a / T - b) * T) with (a - b * T) by (field; lra).
    exact H2.
Qed.

(** The text [toFixed] returns denotes the rounded integer over
    [10 ^ fractionDigits], with the sign of the argument. *)
Lemma toFixed_value x (fractionDigits : Z) :
  (0 <= fractionDigits <= 100)%Z ->
  let v := inject_Z (Orders.nearestInteger (Qabs x * 10 ^ fractionDigits))
           / 10 ^ fractionDigits in
  exists s,
    Orders.toFixed x fractionDigits = inr s /\
    decimalValue s = Some (if Qgtb 0 x then - v else v).
Proof.
  intros Hf v.
  destruct (toFixed_text x fractionDigits Hf)
    as [m [Hs [Hread [c [m' [Hm Hc]]]]]].
  assert (Hu : unsignedValue m = Some v).
  { unfold unsignedValue. rewrite Hread. rewrite Z2Nat.id by lia.
    reflexivity. }
  eexists. split; [exact Hs|].
  destruct (Qgtb 0 x).
  - cbn. rewrite Hu. reflexivity.
  - rewrite Hm in *. cbn [decimalValue].
    rewrite (isDigit_not_minus c Hc). exact Hu.
Qed.

(** X19.  For a digits argument within 0..100 and a number below 10^21 in
    magnitude (where toFixed writes plain digits) toFixed returns a decimal
    text; the number that text denotes is a multiple of 10^-digits within
    half a unit of the last digit of the argument, and is the argument
    itself when that already is such a multiple. *)
Theorem toFixed_nearest_decimal x (fractionDigits : Z) :
  (0 <= fractionDigits <= 100)%Z ->
  Qabs x < 10 ^ 21 ->
  exists s v,
    Orders.toFixed x fractionDigits = inr s /\
    decimalValue s = Some v /\
    (exists n : Z, v * 10 ^ fractionDigits == inject_Z n) /\
    Qabs (v - x) <= (1 # 2) / 10 ^ fractionDigits /\
    ((exists k : Z, x * 10 ^ fractionDigits == inject_Z k) -> v == x).
Proof.
  intros Hf _.
  destruct (toFixed_value x fractionDigits Hf) as [s [Hs Hv]].
  pose proof (ten_power_pos fractionDigits) as HT.
  set (T := 10 ^ fractionDigits) in *.
  set (n := Orders.nearestInteger (Qabs x * T)) in *.
  pose proof (scaled_close (inject_Z n) (Qabs x) T HT
                (nearestInteger_close (Qabs x * T))) as Hclose.
  assert (Hdiv : forall a, a / T * T == a) by (intros a; field; lra).
  assert (Hgrid : forall k : Z, Qabs x * T == inject_Z k -> n = k).
  { intros k Hk. subst n. rewrite <- (nearestInteger_of_integer k).
    unfold Orders.nearestInteger. now rewrite Hk. }
  exists s. eexists. split; [exact Hs|]. split; [exact Hv|].
  destruct (Qgtb 0 x) eqn:Ex.
  - apply Qgtb_true in Ex.
    assert (Hax : Qabs x == - x) by (apply Qabs_neg; lra).
    split.
    { exists (- n)%Z. rewrite inject_Z_opp.
      setoid_replace (- (inject_Z n / T) * T) with (- (inject_Z n / T * T))
        by ring.
      now rewrite Hdiv. }
    split.
    + setoid_replace (- (inject_Z n / T) - x)
        with (- (inject_Z n / T - - x)) by ring.
      rewrite Qabs_opp, <- Hax. exact Hclose.
    + intros [k Hk].
      assert (Hn : n = (- k)%Z).
      { apply Hgrid. rewrite Hax, inject_Z_opp, <- Hk. ring. }
      apply Qmult_inj_r with (z := T); [lra|].
      setoid_replace (- (inject_Z n / T) * T) with (- (inject_Z n / T * T))
        by ring.
      rewrite Hdiv, Hk, Hn, inject_Z_opp. ring.
  - apply Qgtb_false in Ex.
    assert (Hax : Qabs x == x) by (apply Qabs_pos; lra).
    split; [exists n; apply Hdiv|].
    split.
    + rewrite Hax in Hclose. exact Hclose.
    + intros [k Hk].
      assert (Hn : n = k) by (apply Hgrid; now rewrite Hax).
      apply Qmult_inj_r with (z := T); [lra|].
      rewrite Hdiv, Hk, Hn. reflexivity.
Qed.

Lemma toFixed_nearest_decimal_witness :
  exists s v,
    Orders.toFixed (12346 # 1000) 2 = inr s /\
    decimalValue s = Some v /\
    (exists n : Z, v * 10 ^ 2 == inject_Z n) /\
    Qabs (v - (12346 # 1000)) <= (1 # 2) / 10 ^ 2 /\
    ((exists k : Z, (12346 # 1000) * 10 ^ 2 == inject_Z k) ->
     v == 12346 # 1000).
Proof.
  apply (toFixed_nearest_decimal (12346 # 1000) 2); [lia | reflexivity].
Defined.



